(** * Status reconciliation core of the cluster version operator

    A shallow embedding of

    - the update status controller ([updatestatus]): insights received from
      informers are kept in an internal ConfigMap and merged into the
      ConfigMap of the cluster on every sync;
    - the ClusterOperator builder ([internal]): the poll loop that waits
      until a cluster operator reports the expected versions and conditions;
    - the summary of failed precondition checks ([precondition]).

    Go maps are [gmap]s, a nil map is [None], and a run-time panic is [None]
    in the result of the function that panics. The ConfigMap client is a
    fake that holds objects, injects failures and logs the calls it
    receives; the getter of cluster operators is a function of the number
    of the call. Log output is left out, and so is the text of the events,
    which carries wall-clock durations. *)

From Stdlib Require Import ZArith String Ascii List Bool Lia.
From stdpp Require Import gmap strings list fin_maps sorting.

(** ** Errors

    Go's [error] interface, restricted to the dynamic types that occur in
    the embedded code. *)

(** Modelled from the spec: [payload.UpdateError] is declared in pkg/payload,
    which is not part of the sources at hand; the spec's StructuredError is
    [{nestedCause, reasonCode, message, subjectName}], and the composite
    literals of the source name the fields Nested, Reason, Message, Name. *)
#[warnings="-register-all"]
Inductive error : Type :=
| errorString (s : string)
| StatusError (reason message : string)
| ErrWaitTimeout
| UpdateError (Nested : option error) (Reason Message Name : string)
| PreconditionError (Nested : option error) (Reason Message Name : string).

(** [errors.IsNotFound]: the API status reason is NotFound. *)
Definition IsNotFound (err : error) : bool :=
  match err with
  | StatusError reason _ => String.eqb reason "NotFound"
  | _ => false
  end.

Definition NewNotFound (name : string) : error :=
  StatusError "NotFound" ("configmaps " +:+ name +:+ " not found").

(** Go's [int] on 64-bit targets: two's complement wrap-around. *)
Definition wrap_int (z : Z) : Z := ((z + 2 ^ 63) `mod` 2 ^ 64 - 2 ^ 63)%Z.
Definition max_int : Z := (2 ^ 63 - 1)%Z.

(** ** The update status controller (package updatestatus) *)

Module updatestatus.

(** *** Data *)

Record informerMsg := { uid : string; insight : list Byte.byte }.

Record ConfigMap := {
  Name : string;
  Namespace : string;
  Data : option (gmap string string)
}.

Definition DeepCopy (o : ConfigMap) : ConfigMap :=
  {| Name := Name o; Namespace := Namespace o; Data := Data o |}.

(** The entries of a ConfigMap; reading a nil map yields no entry. *)
Definition entries (o : ConfigMap) : gmap string string := default ∅ (Data o).

Definition isStatusInsightKey (k : string) : bool := String.prefix "usc-" k.

Definition statusApiConfigMap : string := "status-api-cm-prototype".

(** *** The ConfigMap client

    A fake [corev1client.ConfigMapInterface]: the objects of the namespace
    by name, an optional injected failure for each verb, and the log of the
    calls made. *)

Inductive Action :=
| GetAction (name : string)
| UpdateAction (obj : ConfigMap).

Record ConfigMapInterface := {
  objects : gmap string ConfigMap;
  getReactor : option error;
  updateReactor : option error;
  actions : list Action
}.

Definition record_action (a : Action) (cl : ConfigMapInterface) : ConfigMapInterface :=
  {| objects := objects cl; getReactor := getReactor cl;
     updateReactor := updateReactor cl; actions := actions cl ++ [a] |}.

Definition Get (name : string) (cl : ConfigMapInterface)
  : (ConfigMap + error) * ConfigMapInterface :=
  let cl' := record_action (GetAction name) cl in
  match getReactor cl with
  | Some e => (inr e, cl')
  | None =>
      match objects cl !! name with
      | Some o => (inl (DeepCopy o), cl')
      | None => (inr (NewNotFound name), cl')
      end
  end.

Definition Update (o : ConfigMap) (cl : ConfigMapInterface)
  : option error * ConfigMapInterface :=
  let cl' := record_action (UpdateAction o) cl in
  match updateReactor cl with
  | Some e => (Some e, cl')
  | None =>
      match objects cl !! Name o with
      | Some _ =>
          (None, {| objects := <[Name o := o]> (objects cl');
                    getReactor := getReactor cl';
                    updateReactor := updateReactor cl';
                    actions := actions cl' |})
      | None => (Some (NewNotFound (Name o)), cl')
      end
  end.

Definition is_update (a : Action) : bool :=
  match a with UpdateAction _ => true | GetAction _ => false end.

(** The updates issued so far. *)
Definition updates (cl : ConfigMapInterface) : list Action :=
  List.filter is_update (actions cl).

(** *** The controller

    [statusApi_cm] is [c.statusApi.cm] ([None] for the nil pointer) and
    [statusApi_processed] is [c.statusApi.processed]. The mutex is held for
    the whole of each method below, which therefore runs atomically. *)

Record updateStatusController := {
  configMaps : ConfigMapInterface;
  statusApi_cm : option ConfigMap;
  statusApi_processed : Z
}.

Definition newUpdateStatusController (cl : ConfigMapInterface) : updateStatusController :=
  {| configMaps := cl; statusApi_cm := None; statusApi_processed := 0 |}.

(** [c.statusApi.cm.Data[msg.uid] = updatedContent] panics when [Data] is
    the nil map; the result is then [None]. Logging is left out. *)
Definition updateInsightInStatusApi (msg : informerMsg) (c : updateStatusController)
  : option updateStatusController :=
  let cm :=
    match statusApi_cm c with
    | None => {| Name := ""; Namespace := ""; Data := Some ∅ |}
    | Some cm => cm
    end in
  let updatedContent := string_of_list_byte (insight msg) in
  match Data cm with
  | None => None
  | Some d =>
      Some {| configMaps := configMaps c;
              statusApi_cm :=
                Some {| Name := Name cm; Namespace := Namespace cm;
                        Data := Some (<[uid msg := updatedContent]> d) |};
              statusApi_processed := wrap_int (statusApi_processed c + 1) |}
  end.

(** [for k := range mergedCm.Data { if isStatusInsightKey(k) { delete(mergedCm.Data, k) } }] *)
Definition deleteInsightKeys (d : option (gmap string string)) : option (gmap string string) :=
  match d with
  | None => None
  | Some m =>
      Some (map_fold (λ k _ acc, if isStatusInsightKey k then delete k acc else acc) m m)
  end.

(** [for k, v := range c.statusApi.cm.Data { if mergedCm.Data == nil { ... }; mergedCm.Data[k] = v }] *)
Definition overlay (src dst : option (gmap string string)) : option (gmap string string) :=
  match src with
  | None => dst
  | Some s => map_fold (λ k v acc, Some (<[k := v]> (default ∅ acc))) dst s
  end.

Definition mergeInto (internal clusterCm : ConfigMap) : ConfigMap :=
  let mergedCm := DeepCopy clusterCm in
  {| Name := Name mergedCm; Namespace := Namespace mergedCm;
     Data := overlay (Data internal) (deleteInsightKeys (Data mergedCm)) |}.

Definition commitStatusApiAsConfigMap (c : updateStatusController)
  : option error * updateStatusController :=
  let '(res, cl1) := Get statusApiConfigMap (configMaps c) in
  match res with
  | inr err =>
      let c1 := {| configMaps := cl1; statusApi_cm := statusApi_cm c;
                   statusApi_processed := statusApi_processed c |} in
      if IsNotFound err then (None, c1) else (Some err, c1)
  | inl clusterCm =>
      match statusApi_cm c with
      | None =>
          (None, {| configMaps := cl1; statusApi_cm := Some (DeepCopy clusterCm);
                    statusApi_processed := statusApi_processed c |})
      | Some internal =>
          let mergedCm := mergeInto internal clusterCm in
          let '(err, cl2) := Update mergedCm cl1 in
          (err, {| configMaps := cl2; statusApi_cm := Some mergedCm;
                   statusApi_processed := statusApi_processed c |})
      end
  end.

Definition sync (queueKey : string) (c : updateStatusController)
  : option error * updateStatusController :=
  let queueKey := if String.eqb queueKey "" then statusApiConfigMap else queueKey in
  if negb (String.eqb queueKey statusApiConfigMap) then (None, c)
  else commitStatusApiAsConfigMap c.

(** The keys of a ConfigMap that carry the reserved prefix, and the others. *)
Definition managedKeys (o : ConfigMap) : gset string :=
  dom (filter (λ kv, isStatusInsightKey kv.1 = true) (entries o)).

(** The property of a commit that the specification calls merge purity:
    the managed keys of the written resource are the ids of the desired
    state, and the foreign entries of the fetched resource are kept. *)
Definition MergePure (desired fetched written : ConfigMap) : Prop :=
  managedKeys written = dom (entries desired) ∧
  ∀ k v, isStatusInsightKey k = false →
         entries fetched !! k = Some v → entries written !! k = Some v.

(** The internal state can take an insight: it is unset, or its map is
    allocated. *)
Definition writable (c : updateStatusController) : Prop :=
  match statusApi_cm c with
  | None => True
  | Some cm => is_Some (Data cm)
  end.

(** *** Vocabulary of the statements *)

(** The namespace of the ConfigMap. The constant is declared outside the
    sources at hand; the comment of the controller names this namespace. It
    only occurs in the concrete states below. *)
Definition uscNamespace : string := "openshift-cluster-version".

(** A cluster that holds the ConfigMap of the status API with the given
    data. *)
Definition clusterWith (data : option (gmap string string)) : ConfigMapInterface :=
  {| objects := {[ statusApiConfigMap :=
                     {| Name := statusApiConfigMap; Namespace := uscNamespace;
                        Data := data |} ]};
     getReactor := None; updateReactor := None; actions := [] |}.

(** The data of the specification's example, [{foo: bar}]. *)
Definition fooBar : gmap string string := {[ "foo" := "bar" ]}.

(** The message of an informer, its content given as a string. *)
Definition msgOf (id content : string) : informerMsg :=
  {| uid := id; insight := list_byte_of_string content |}.

(** The entries of the internal state; none before the first insight. *)
Definition desiredEntries (c : updateStatusController) : gmap string string :=
  match statusApi_cm c with
  | None => ∅
  | Some cm => entries cm
  end.

(** The values of Go's [int]. *)
Definition int_range (z : Z) : Prop := (- 2 ^ 63 ≤ z ≤ max_int)%Z.

(** *** Event filter, queue key and insight receiver *)

(** What the informer hands to the callbacks as [runtime.Object] or
    [interface{}]: nil, a ConfigMap, or an object of another type. *)
Inductive Object :=
| nilObject
| configMapObject (o : ConfigMap)
| otherObject (kind : string).

(** [klog.Fatalf] ends the process; the result is then [None]. The nil
    slice is the empty list. *)
Definition cmNameKey (object : Object) : option (list string) :=
  match object with
  | nilObject => Some []
  | configMapObject o => Some [Name o]
  | otherObject _ => None
  end.

Definition nsFilter (namespace : string) (obj : Object) : bool :=
  match obj with
  | nilObject => false
  | configMapObject o => String.eqb (Namespace o) namespace
  | otherObject _ => false
  end.

(** The loop of [startInsightReceiver] over the messages it receives from
    the channel before its [select] takes [ctx.Done()] and returns nil:
    each one is stored and then the key of the ConfigMap is added to the
    queue of the controller. [queue] logs the keys added. The result is
    [None] when storing an insight panics. The senders and the capacity of
    the channel are not modelled. *)
Fixpoint startInsightReceiver (received : list informerMsg)
    (c : updateStatusController) (queue : list string)
  : option (option error * updateStatusController * list string) :=
  match received with
  | [] => Some (None, c, queue)
  | insight :: rest =>
      match updateInsightInStatusApi insight c with
      | None => None
      | Some c' => startInsightReceiver rest c' (queue ++ [statusApiConfigMap])
      end
  end.

(** The content stored for a uid by the last of the messages that carry
    it. *)
Fixpoint lastContent (id : string) (msgs : list informerMsg) : option string :=
  match msgs with
  | [] => None
  | msg :: rest =>
      match lastContent id rest with
      | Some content => Some content
      | None =>
          if String.eqb (uid msg) id then Some (string_of_list_byte (insight msg))
          else None
      end
  end.

End updatestatus.

(** ** The ClusterOperator builder (package internal) *)

Module internal.

(** *** API types (github.com/openshift/api/config/v1) *)

Module OperandVersion.
Record t := { Name : string; Version : string }.
End OperandVersion.

Module Condition.
Record t := { Type_ : string; Status : string; Message : string }.
End Condition.

Module ClusterOperatorStatus.
Record t := {
  Conditions : list Condition.t;
  Versions : list OperandVersion.t
}.
End ClusterOperatorStatus.

Module ClusterOperator.
Record t := { Name : string; Status : ClusterOperatorStatus.t }.
End ClusterOperator.

Definition OperatorAvailable : string := "Available".
Definition OperatorProgressing : string := "Progressing".
Definition OperatorFailing : string := "Failing".
Definition OperatorDegraded : string := "Degraded".
Definition ConditionTrue : string := "True".
Definition ConditionFalse : string := "False".
Definition ConditionUnknown : string := "Unknown".

(** Modelled from the spec: [resourcebuilder.Mode] is declared in
    lib/resourcebuilder, which is not part of the sources at hand; the spec
    gives the enumeration [{Initializing, Default}]. The [switch] of the
    source sends every mode but [InitializingMode] to its default branch. *)
Inductive Mode := InitializingMode | DefaultMode.

(** [ClusterOperatorsGetter]: what the n-th call of [Get] returns for a
    name. *)
Definition ClusterOperatorsGetter : Type :=
  nat → string → ClusterOperator.t + error.

(** The events sent to the recorder, by type and reason; their message
    carries the elapsed wall-clock time and is left out. *)
Record Event := { eventtype : string; reason : string }.

(** *** [wait.PollImmediateUntil]

    The condition runs at once and then at every tick of the interval until
    it reports done or fails, or until the stop channel is closed, which
    yields [ErrWaitTimeout]. [ticks] is the number of ticks that fire before
    the stop channel is closed; the condition receives the index of its
    call. *)
Fixpoint PollUntil {St} (condition : nat → St → (bool * option error) * St)
    (call ticks : nat) (s : St) : option error * St :=
  match ticks with
  | 0 => (Some ErrWaitTimeout, s)
  | S ticks' =>
      let '((done, err), s') := condition call s in
      match err with
      | Some e => (Some e, s')
      | None => if done then (None, s') else PollUntil condition (S call) ticks' s'
      end
  end.

Definition PollImmediateUntil {St} (condition : nat → St → (bool * option error) * St)
    (ticks : nat) (s : St) : option error * St :=
  let '((done, err), s') := condition 0 s in
  match err with
  | Some e => (Some e, s')
  | None => if done then (None, s') else PollUntil condition 1 ticks s'
  end.

(** *** Strings *)

Definition sprint_bool (b : bool) : string := if b then "true" else "false".

(** [sort.Strings]: ascending in the byte-wise order of Go strings. *)
Definition string_le (a b : string) : Prop := String.leb a b = true.

#[global] Instance string_le_dec (a b : string) : Decision (string_le a b) :=
  bool_eq_dec (String.leb a b) true.

Definition sort_Strings (l : list string) : list string :=
  merge_sort string_le l.

(** [strings.Join] *)
Definition Join (elems : list string) (sep : string) : string :=
  String.concat sep elems.

Definition toLowerASCII (c : ascii) : ascii :=
  let n := nat_of_ascii c in
  if (65 <=? n)%nat && (n <=? 90)%nat then ascii_of_nat (n + 32) else c.

Section waiter.

(** [string(unicode.ToLower(v))] for the first rune [v] of a string that
    does not start with an ASCII byte; decoding UTF-8 and the case tables of
    Unicode are not modelled. *)
Variable lowerRune : string → string.

(** The loop body returns in its first iteration: the first rune in lower
    case, followed by [str[1:]]. *)
Definition lowerFirst (str : string) : string :=
  match str with
  | EmptyString => ""
  | String c rest =>
      if (nat_of_ascii c <? 128)%nat then String (toLowerASCII c) rest
      else lowerRune str +:+ rest
  end.

(** *** One call of the poll condition *)

(** The inner loop over [actual.Status.Versions], up to its [break]. *)
Fixpoint matchActual (expOp : OperandVersion.t) (actuals : list OperandVersion.t)
    (undone : gmap string (list string)) : gmap string (list string) :=
  match actuals with
  | [] => undone
  | actOp :: rest =>
      if String.eqb (OperandVersion.Name actOp) (OperandVersion.Name expOp) then
        let undone1 :=
          <[OperandVersion.Name expOp :=
              default [] (undone !! OperandVersion.Name expOp)
              ++ [OperandVersion.Version actOp]]> undone in
        if String.eqb (OperandVersion.Version actOp) (OperandVersion.Version expOp)
        then delete (OperandVersion.Name expOp) undone1
        else undone1
      else matchActual expOp rest undone
  end.

Definition undoneStep (actuals : list OperandVersion.t)
    (undone : gmap string (list string)) (expOp : OperandVersion.t)
  : gmap string (list string) :=
  matchActual expOp actuals
    (<[OperandVersion.Name expOp := [OperandVersion.Version expOp]]> undone).

(** [undone] maps an incomplete operand to its expected version, followed
    by its actual version when there is one. *)
Definition computeUndone (expected actual : ClusterOperator.t)
  : gmap string (list string) :=
  fold_left
    (undoneStep (ClusterOperatorStatus.Versions (ClusterOperator.Status actual)))
    (ClusterOperatorStatus.Versions (ClusterOperator.Status expected)) ∅.

Definition undoneKeys (undone : gmap string (list string)) : list string :=
  sort_Strings (map_to_list undone).*1.

(** [ver[1]] and [ver[0]] are in range: a tuple of [undone] has one or two
    entries (lemma [computeUndone_tuple]). *)
Definition operandReport (op : string) (ver : list string) : string :=
  match ver with
  | [_] => "missing version information for " +:+ op
  | _ => "upgrading " +:+ op +:+ " from " +:+ nth 1 ver "" +:+ " to " +:+ nth 0 ver ""
  end.

Definition buildReports (undone : gmap string (list string)) (keys : list string)
  : list string :=
  fold_left
    (λ reports op,
       if String.eqb op "operator" then reports
       else reports ++ [operandReport op (default [] (undone !! op))])
    keys [].

Definition stillUpdatingMessage (name : string) (reports : list string) : string :=
  if (0 <? length reports)%nat
  then "Cluster operator " +:+ name +:+ " is still updating: " +:+ Join reports ", "
  else "Cluster operator " +:+ name +:+ " is still updating".

(** The variables assigned by the loop over [actual.Status.Conditions]. *)
Record conditionScan := {
  available : bool;
  progressing : bool;
  failing : bool;
  failingCondition : option Condition.t;
  degradedValue : bool;
  degradedCondition : option Condition.t
}.

Definition scanStart : conditionScan :=
  {| available := false; progressing := true; failing := true;
     failingCondition := None; degradedValue := true; degradedCondition := None |}.

Definition scanCondition (s : conditionScan) (condition : Condition.t) : conditionScan :=
  if String.eqb (Condition.Type_ condition) OperatorAvailable
     && String.eqb (Condition.Status condition) ConditionTrue then
    {| available := true; progressing := progressing s; failing := failing s;
       failingCondition := failingCondition s; degradedValue := degradedValue s;
       degradedCondition := degradedCondition s |}
  else if String.eqb (Condition.Type_ condition) OperatorProgressing
          && String.eqb (Condition.Status condition) ConditionFalse then
    {| available := available s; progressing := false; failing := failing s;
       failingCondition := failingCondition s; degradedValue := degradedValue s;
       degradedCondition := degradedCondition s |}
  else if String.eqb (Condition.Type_ condition) OperatorFailing then
    {| available := available s; progressing := progressing s;
       failing :=
         if String.eqb (Condition.Status condition) ConditionFalse then false
         else failing s;
       failingCondition := Some condition; degradedValue := degradedValue s;
       degradedCondition := degradedCondition s |}
  else if String.eqb (Condition.Type_ condition) OperatorDegraded then
    {| available := available s; progressing := progressing s; failing := failing s;
       failingCondition := failingCondition s;
       degradedValue :=
         if String.eqb (Condition.Status condition) ConditionFalse then false
         else degradedValue s;
       degradedCondition := Some condition |}
  else s.

Definition scanConditions (conditions : list Condition.t) : conditionScan :=
  fold_left scanCondition conditions scanStart.

(** [degraded := failing; if degradedCondition != nil { degraded = degradedValue }] *)
Definition degradedOf (s : conditionScan) : bool :=
  match degradedCondition s with
  | Some _ => degradedValue s
  | None => failing s
  end.

(** The [switch mode] of the source. *)
Definition modeDone (mode : Mode) (expected : ClusterOperator.t) (s : conditionScan) : bool :=
  let versions := ClusterOperatorStatus.Versions (ClusterOperator.Status expected) in
  match mode with
  | InitializingMode =>
      available s && (negb (progressing s) || (0 <? length versions)%nat)
  | _ =>
      available s && (negb (progressing s) || (0 <? length versions)%nat)
      && negb (degradedOf s)
  end.

(** The diagnostic of a call whose component is not done although no operand
    is outstanding. *)
Definition notDoneError (actual : ClusterOperator.t) (s : conditionScan) : error :=
  let condition :=
    match degradedCondition s with
    | Some c => Some c
    | None => failingCondition s
    end in
  let name := ClusterOperator.Name actual in
  match condition with
  | Some c =>
      if String.eqb (Condition.Status c) ConditionTrue then
        let message :=
          if (0 <? String.length (Condition.Message c))%nat
          then "Cluster operator " +:+ name +:+ " is reporting a failure: "
               +:+ Condition.Message c
          else "Cluster operator " +:+ name +:+ " is reporting a failure" in
        UpdateError (Some (errorString (lowerFirst message)))
          "ClusterOperatorDegraded" message name
      else
        UpdateError
          (Some (errorString
             ("cluster operator " +:+ name +:+ " is not done; it is available="
              +:+ sprint_bool (available s) +:+ ", progressing="
              +:+ sprint_bool (progressing s) +:+ ", degraded="
              +:+ sprint_bool (degradedOf s))))
          "ClusterOperatorNotAvailable"
          ("Cluster operator " +:+ name +:+ " has not yet reported success") name
  | None =>
      UpdateError
        (Some (errorString
           ("cluster operator " +:+ name +:+ " is not done; it is available="
            +:+ sprint_bool (available s) +:+ ", progressing="
            +:+ sprint_bool (progressing s) +:+ ", degraded="
            +:+ sprint_bool (degradedOf s))))
        "ClusterOperatorNotAvailable"
        ("Cluster operator " +:+ name +:+ " has not yet reported success") name
  end.

(** The closure passed to [PollImmediateUntil]; its state is [lastErr]. *)
Definition condition (client : ClusterOperatorsGetter) (expected : ClusterOperator.t)
    (mode : Mode) (call : nat) (lastErr : option error)
  : (bool * option error) * option error :=
  match client call (ClusterOperator.Name expected) with
  | inr err =>
      ((false, None),
       Some (UpdateError (Some err) "ClusterOperatorNotAvailable"
               ("Cluster operator " +:+ ClusterOperator.Name expected
                +:+ " has not yet reported success")
               (ClusterOperator.Name expected)))
  | inl actual =>
      let undone := computeUndone expected actual in
      if (0 <? size undone)%nat then
        let reports := buildReports undone (undoneKeys undone) in
        let message := stillUpdatingMessage (ClusterOperator.Name actual) reports in
        ((false, None),
         Some (UpdateError (Some (errorString (lowerFirst message)))
                 "ClusterOperatorNotAvailable" message (ClusterOperator.Name actual)))
      else
        let s := scanConditions
                   (ClusterOperatorStatus.Conditions (ClusterOperator.Status actual)) in
        if modeDone mode expected s then ((true, None), lastErr)
        else ((false, None), Some (notDoneError actual s))
  end.

(** What the function returns once the poll has returned [err]. *)
Definition waitResult (err lastErr : option error) : option error * list Event :=
  let started := {| eventtype := "Normal"; reason := "ClusterOperatorWaitStarted" |} in
  let failed := {| eventtype := "Warning"; reason := "ClusterOperatorWaitFailed" |} in
  let succeeded := {| eventtype := "Normal"; reason := "ClusterOperatorWaitSucceeded" |} in
  match err with
  | Some e =>
      match e, lastErr with
      | ErrWaitTimeout, Some last => (Some last, [started; failed])
      | _, _ => (Some e, [started; failed])
      end
  | None => (None, [started; succeeded])
  end.

Definition waitForOperatorStatusToBeDone (ticks : nat) (client : ClusterOperatorsGetter)
    (expected : ClusterOperator.t) (mode : Mode) : option error * list Event :=
  let '(err, lastErr) :=
    PollImmediateUntil (condition client expected mode) ticks None in
  waitResult err lastErr.

(** Whether a call of the condition reports done, and the diagnostic it
    records; neither depends on the diagnostic recorded before. *)
Definition doneAt (client : ClusterOperatorsGetter) (expected : ClusterOperator.t)
    (mode : Mode) (call : nat) : bool :=
  (condition client expected mode call None).1.1.

Definition diagnosticAt (client : ClusterOperatorsGetter) (expected : ClusterOperator.t)
    (mode : Mode) (call : nat) : option error :=
  (condition client expected mode call None).2.

End waiter.

(** *** Vocabulary of the statements *)

(** [c] has type [t] and status [st]. *)
Definition reports (t st : string) (c : Condition.t) : bool :=
  String.eqb (Condition.Type_ c) t && String.eqb (Condition.Status c) st.

Definition hasType (t : string) (c : Condition.t) : bool :=
  String.eqb (Condition.Type_ c) t.

Definition isSome {A} (o : option A) : bool :=
  match o with Some _ => true | None => false end.

Definition mkCondition (t st m : string) : Condition.t :=
  {| Condition.Type_ := t; Condition.Status := st; Condition.Message := m |}.

Definition mkOperand (name version : string) : OperandVersion.t :=
  {| OperandVersion.Name := name; OperandVersion.Version := version |}.

Definition mkOperator (name : string) (versions : list OperandVersion.t)
    (conditions : list Condition.t) : ClusterOperator.t :=
  {| ClusterOperator.Name := name;
     ClusterOperator.Status :=
       {| ClusterOperatorStatus.Conditions := conditions;
          ClusterOperatorStatus.Versions := versions |} |}.

Definition waitStarted : Event :=
  {| eventtype := "Normal"; reason := "ClusterOperatorWaitStarted" |}.
Definition waitSucceeded : Event :=
  {| eventtype := "Normal"; reason := "ClusterOperatorWaitSucceeded" |}.
Definition waitFailed : Event :=
  {| eventtype := "Warning"; reason := "ClusterOperatorWaitFailed" |}.

(** The version a list gives for a name: that of its first entry with the
    name. In the list of expected versions the last entry with a name
    decides, since it overwrites the tuple of an earlier one. *)
Fixpoint lookupVersion (name : string) (l : list OperandVersion.t) : option string :=
  match l with
  | [] => None
  | op :: rest =>
      if String.eqb (OperandVersion.Name op) name then Some (OperandVersion.Version op)
      else lookupVersion name rest
  end.

(** The tuple kept for an operand expected at [ev], given its actual
    version. *)
Definition undoneTuple (ev : string) (actualVersion : option string)
  : option (list string) :=
  match actualVersion with
  | None => Some [ev]
  | Some av => if String.eqb av ev then None else Some [ev; av]
  end.

(** What is reported for an operand expected at [ev]. *)
Definition reportFor (name ev : string) (actualVersion : option string) : string :=
  match actualVersion with
  | None => "missing version information for " +:+ name
  | Some av => "upgrading " +:+ name +:+ " from " +:+ av +:+ " to " +:+ ev
  end.

(** The last condition of a type, which is the one the scan keeps. *)
Definition lastOfType (t : string) (conditions : list Condition.t) : option Condition.t :=
  last (filter (λ c, hasType t c = true) conditions).

(** The condition whose status and message decide the diagnostic of a call
    that is not done: the last of type Degraded when there is one, else the
    last of type Failing. *)
Definition failureCondition (conditions : list Condition.t) : option Condition.t :=
  match lastOfType OperatorDegraded conditions with
  | Some c => Some c
  | None => lastOfType OperatorFailing conditions
  end.

(** The reason of an update error. *)
Definition reasonOf (e : error) : string :=
  match e with
  | UpdateError _ r _ _ => r
  | PreconditionError _ r _ _ => r
  | StatusError r _ => r
  | _ => ""
  end.

End internal.

(** ** Precondition checks (package precondition) *)

Module precondition.

(** Modelled from the spec: the method [Error] of [payload.UpdateError],
    which is not part of the sources at hand, is taken to return the human
    message of the structured error, as [precondition.Error.Error] does. The
    other cases are [errors.New], the API status errors and the time-out of
    the poll. *)
Definition Error (e : error) : string :=
  match e with
  | errorString s => s
  | StatusError _ message => message
  | ErrWaitTimeout => "timed out waiting for the condition"
  | UpdateError _ _ message _ => message
  | PreconditionError _ _ message _ => message
  end.

Section Summarize.

(** The verb [%q] of [fmt]: the string as a quoted Go literal
    ([strconv.Quote]), whose escaping rules are not modelled. *)
Variable quote : string → string.

(** The body of the loop over [errs]: a [*precondition.Error] is rendered
    with its name and reason, any other error by its [Error] method. *)
Definition summaryLine (e : error) : string :=
  match e with
  | PreconditionError _ reason message name =>
      "Precondition " +:+ quote name +:+ " failed because of " +:+ quote reason
      +:+ ": " +:+ message
  | _ => Error e
  end.

Definition newline : string := String (ascii_of_nat 10) EmptyString.

Definition Summarize (errs : list error) : option error :=
  if (length errs =? 0)%nat then None
  else
    let msgs := fold_left (λ msgs e, msgs ++ [summaryLine e]) errs [] in
    let msg :=
      match msgs with
      | [m] => m
      | _ => "Multiple precondition checks failed:" +:+ newline +:+ "* "
             +:+ internal.Join msgs (newline +:+ "* ")
      end in
    Some (UpdateError None "UpgradePreconditionCheckFailed" msg "PreconditionCheck").

End Summarize.

(** *** Vocabulary of the statements *)

(** One bullet per message, each on a line of its own. *)
Fixpoint bulletLines (msgs : list string) : string :=
  match msgs with
  | [] => ""
  | m :: rest => newline +:+ "* " +:+ m +:+ bulletLines rest
  end.

(** [%q] for strings without characters that need escaping. *)
Definition quotePlain (s : string) : string :=
  String (ascii_of_nat 34) s +:+ String (ascii_of_nat 34) "".

(** *** The list of checks *)

(** The interface [Precondition]: [Run] returns nil ([None]) when the check
    passes. [World] is what a check reads and changes: the cluster behind
    its context. *)
Module Precondition.
Record t (World : Type) := {
  Run : string → World → option error * World;
  Name : string
}.
Arguments Run {World}.
Arguments Name {World}.
End Precondition.

(** The loop of [RunAll], with [errs] and the world as its state. *)
Definition RunAll {World} (pfList : list (Precondition.t World))
    (desiredVersion : string) (w : World) : list error * World :=
  fold_left
    (λ '(errs, w) pf,
       let '(err, w') := Precondition.Run pf desiredVersion w in
       match err with
       | Some e => (errs ++ [e], w')
       | None => (errs, w')
       end)
    pfList ([], w).

(** The results of the checks of a list, each run in the world that the
    checks before it have left. *)
Fixpoint outcomes {World} (pfList : list (Precondition.t World))
    (desiredVersion : string) (w : World) : list (option error) :=
  match pfList with
  | [] => []
  | pf :: rest =>
      (Precondition.Run pf desiredVersion w).1
      :: outcomes rest desiredVersion (Precondition.Run pf desiredVersion w).2
  end.

End precondition.

(** * Properties of the update status controller *)

Section updatestatus_proofs.

Import updatestatus.

Lemma wrap_int_small z : (- 2 ^ 63 ≤ z ≤ max_int)%Z → wrap_int z = z.
Proof.
  unfold wrap_int, max_int. intros H.
  rewrite Z.mod_small; lia.
Qed.

(** *** The two loops of the merge, by lookup *)

Lemma DeepCopy_id o : DeepCopy o = o.
Proof. by destruct o. Qed.

Lemma lookup_deleteInsightKeys_fold (m b : gmap string string) k :
  map_fold (λ k _ acc, if isStatusInsightKey k then delete k acc else acc) b m !! k
  = match m !! k with
    | Some _ => if isStatusInsightKey k then None else b !! k
    | None => b !! k
    end.
Proof.
  revert k. apply (map_fold_weak_ind (λ r m, ∀ k, r !! k =
    match m !! k with
    | Some _ => if isStatusInsightKey k then None else b !! k
    | None => b !! k
    end)).
  - intros k. by rewrite lookup_empty.
  - intros i x m' r Hi IH k. destruct (decide (i = k)) as [->|Hne].
    + rewrite lookup_insert_eq.
      destruct (isStatusInsightKey k) eqn:Hk.
      * by rewrite lookup_delete_eq.
      * by rewrite IH, Hi.
    + rewrite lookup_insert_ne by done.
      destruct (isStatusInsightKey i); [rewrite lookup_delete_ne by done|]; apply IH.
Qed.

Lemma lookup_deleteInsightKeys (d : option (gmap string string)) k :
  default ∅ (deleteInsightKeys d) !! k
  = if isStatusInsightKey k then None else default ∅ d !! k.
Proof.
  destruct d as [m|]; simpl.
  - rewrite lookup_deleteInsightKeys_fold.
    destruct (m !! k) eqn:Hk; by destruct (isStatusInsightKey k).
  - rewrite lookup_empty. by destruct (isStatusInsightKey k).
Qed.

Lemma lookup_overlay (src dst : option (gmap string string)) k :
  default ∅ (overlay src dst) !! k
  = match default ∅ src !! k with
    | Some v => Some v
    | None => default ∅ dst !! k
    end.
Proof.
  destruct src as [s|]; simpl; [|by rewrite lookup_empty].
  revert k. apply (map_fold_weak_ind (λ r m, ∀ k, default ∅ r !! k =
    match m !! k with Some v => Some v | None => default ∅ dst !! k end)).
  - intros k. by rewrite lookup_empty.
  - intros i x m r Hi IH k. simpl. destruct (decide (i = k)) as [->|Hne].
    + by rewrite !lookup_insert_eq.
    + rewrite !lookup_insert_ne by done. apply IH.
Qed.

(** An entry of the merged resource is the internal one when there is one,
    else the foreign entry of the cluster resource. *)
Lemma lookup_mergeInto internal clusterCm k :
  entries (mergeInto internal clusterCm) !! k
  = match entries internal !! k with
    | Some v => Some v
    | None => if isStatusInsightKey k then None else entries clusterCm !! k
    end.
Proof.
  unfold mergeInto, entries. simpl.
  by rewrite lookup_overlay, lookup_deleteInsightKeys.
Qed.

Lemma elem_of_managedKeys o k :
  k ∈ managedKeys o ↔ isStatusInsightKey k = true ∧ is_Some (entries o !! k).
Proof.
  unfold managedKeys. rewrite elem_of_dom. split.
  - intros [v Hv]. apply map_lookup_filter_Some in Hv as [Hv Hk]. eauto.
  - intros [Hk [v Hv]]. exists v. by apply map_lookup_filter_Some.
Qed.

Lemma managedKeys_mergeInto internal clusterCm :
  managedKeys (mergeInto internal clusterCm) = managedKeys internal.
Proof.
  apply set_eq. intros k. rewrite !elem_of_managedKeys, lookup_mergeInto.
  destruct (entries internal !! k) as [v|] eqn:Hk.
  - split; intros [? _]; eauto.
  - split; intros [Hp [v Hv]]; [|done]. by rewrite Hp in Hv.
Qed.

(** *** The client *)

Lemma updates_record_action a cl :
  updates (record_action a cl) = updates cl ++ (if is_update a then [a] else []).
Proof. unfold updates. simpl. rewrite List.filter_app. simpl. by destruct (is_update a). Qed.

Lemma Get_found name cl o :
  getReactor cl = None → objects cl !! name = Some o →
  Get name cl = (inl o, record_action (GetAction name) cl).
Proof. intros Hr Ho. unfold Get. by rewrite Hr, Ho, DeepCopy_id. Qed.

Lemma updates_Update o cl :
  updates (Update o cl).2 = updates cl ++ [UpdateAction o].
Proof.
  unfold Update.
  destruct (updateReactor cl); [apply (updates_record_action (UpdateAction o))|].
  destruct (objects cl !! Name o); apply (updates_record_action (UpdateAction o)).
Qed.

Lemma objects_Get name cl : objects (Get name cl).2 = objects cl.
Proof. unfold Get. destruct (getReactor cl); [done|]. by destruct (objects cl !! name). Qed.

Lemma updates_Get name cl : updates (Get name cl).2 = updates cl.
Proof.
  assert (updates (record_action (GetAction name) cl) = updates cl) as H.
  { rewrite updates_record_action. simpl. apply app_nil_r. }
  unfold Get. destruct (getReactor cl); [done|]. by destruct (objects cl !! name).
Qed.

Lemma sync_statusApiConfigMap key c :
  key = "" ∨ key = statusApiConfigMap → sync key c = commitStatusApiAsConfigMap c.
Proof. by intros [-> | ->]. Qed.

Lemma sync_other_key key c :
  key ≠ "" → key ≠ statusApiConfigMap → sync key c = (None, c).
Proof.
  intros H1 H2. unfold sync.
  rewrite (proj2 (String.eqb_neq _ _) H1). by rewrite (proj2 (String.eqb_neq _ _) H2).
Qed.

(** A commit with internal state and a ConfigMap in the cluster sets the
    internal state to the merged resource and sends it in one update. *)
Lemma commit_writes c internal fetched :
  statusApi_cm c = Some internal →
  getReactor (configMaps c) = None →
  objects (configMaps c) !! statusApiConfigMap = Some fetched →
  ∃ err cl,
    commitStatusApiAsConfigMap c
    = (err, {| configMaps := cl; statusApi_cm := Some (mergeInto internal fetched);
               statusApi_processed := statusApi_processed c |})
    ∧ updates cl = updates (configMaps c) ++ [UpdateAction (mergeInto internal fetched)].
Proof.
  intros Hcm Hr Ho. unfold commitStatusApiAsConfigMap.
  rewrite (Get_found _ _ _ Hr Ho), Hcm.
  destruct (Update _ _) as [err cl2] eqn:HU.
  exists err, cl2. split; [done|].
  change cl2 with (err, cl2).2. rewrite <- HU, updates_Update.
  rewrite updates_record_action. simpl. by rewrite app_nil_r.
Qed.

(** *** Merge of the internal state into the cluster resource *)

(** C1, as amended. A commit that finds internal state and the ConfigMap
    of the cluster issues exactly one update. The managed keys (prefix
    [usc-]) of the written resource are the ids of the desired state that
    carry the prefix, and every foreign entry of the fetched resource whose
    key is not an id of the desired state is written unchanged. When every
    id of the desired state carries the prefix, the managed keys are the
    ids of the desired state and all foreign entries are kept. *)
Theorem commit_merge_purity c internal fetched :
  statusApi_cm c = Some internal →
  getReactor (configMaps c) = None →
  objects (configMaps c) !! statusApiConfigMap = Some fetched →
  let c' := (commitStatusApiAsConfigMap c).2 in
  let written := mergeInto internal fetched in
  updates (configMaps c') = updates (configMaps c) ++ [UpdateAction written]
  ∧ statusApi_cm c' = Some written
  ∧ managedKeys written = managedKeys internal
  ∧ (∀ k, isStatusInsightKey k = false → entries internal !! k = None →
          entries written !! k = entries fetched !! k)
  ∧ ((∀ k, is_Some (entries internal !! k) → isStatusInsightKey k = true) →
     MergePure internal fetched written).
Proof.
  intros Hcm Hr Ho c' written.
  destruct (commit_writes c internal fetched Hcm Hr Ho) as (err & cl & Hc & Hu).
  subst c'. rewrite Hc. simpl. split; [done|]. split; [done|].
  split; [apply managedKeys_mergeInto|]. split.
  - intros k Hk Hi. subst written. by rewrite lookup_mergeInto, Hi, Hk.
  - intros Hall. split.
    + subst written. rewrite managedKeys_mergeInto.
      apply set_eq. intros k. rewrite elem_of_managedKeys, elem_of_dom.
      split; [by intros [_ H] | intros H; split; [by apply Hall | exact H]].
    + intros k v Hk Hv. subst written. rewrite lookup_mergeInto.
      destruct (entries internal !! k) as [w|] eqn:Hi.
      * assert (isStatusInsightKey k = true) by (apply Hall; eauto). congruence.
      * by rewrite Hk.
Qed.

Lemma commit_merge_purity_witness :
  let c := {| configMaps := clusterWith (Some fooBar);
              statusApi_cm := Some {| Name := ""; Namespace := "";
                                      Data := Some {[ "usc-cv" := "v1" ]} |};
              statusApi_processed := 1 |} in
  let written := mergeInto {| Name := ""; Namespace := "";
                              Data := Some {[ "usc-cv" := "v1" ]} |}
                   {| Name := statusApiConfigMap; Namespace := uscNamespace;
                      Data := Some fooBar |} in
  updates (configMaps (commitStatusApiAsConfigMap c).2) = [UpdateAction written]
  ∧ managedKeys written = {[ "usc-cv" ]}.
Proof.
  intros c written.
  destruct (commit_merge_purity c _ _ eq_refl eq_refl eq_refl) as (H1 & _ & H2 & _).
  split; [exact H1|]. fold written in H2. rewrite H2.
  apply set_eq. intros k. rewrite elem_of_managedKeys, elem_of_singleton. simpl.
  split.
  - intros [_ [v Hv]]. unfold entries in Hv. simpl in Hv.
    apply lookup_singleton_Some in Hv. by destruct Hv.
  - intros ->. split; [reflexivity|]. exists "v1". reflexivity.
Defined.

(** C1, as stated, fails: the insight [foo] makes [foo] an id of the
    desired state; the commit over a ConfigMap holding [foo: bar] writes no
    managed key at all and replaces the foreign entry [foo]. *)
Lemma commit_merge_purity_counterexample :
  let c0 := newUpdateStatusController (clusterWith (Some fooBar)) in
  let desired := {| Name := ""; Namespace := ""; Data := Some {[ "foo" := "new" ]} |} in
  let fetched := {| Name := statusApiConfigMap; Namespace := uscNamespace;
                    Data := Some fooBar |} in
  let written := {| Name := statusApiConfigMap; Namespace := uscNamespace;
                    Data := Some {[ "foo" := "new" ]} |} in
  ∃ c1 c2,
    updateInsightInStatusApi (msgOf "foo" "new") c0 = Some c1
    ∧ statusApi_cm c1 = Some desired
    ∧ objects (configMaps c1) !! statusApiConfigMap = Some fetched
    ∧ commitStatusApiAsConfigMap c1 = (None, c2)
    ∧ updates (configMaps c2) = [UpdateAction written]
    ∧ managedKeys written ≠ dom (entries desired)
    ∧ entries fetched !! "foo" = Some "bar"
    ∧ entries written !! "foo" = Some "new"
    ∧ ¬ MergePure desired fetched written.
Proof.
  intros c0 desired fetched written.
  eexists _, _. split; [reflexivity|]. split; [reflexivity|].
  split; [reflexivity|]. split; [vm_compute; reflexivity|].
  split; [vm_compute; reflexivity|].
  assert (managedKeys written ≠ dom (entries desired)) as Hkeys.
  { intros H. assert ("foo" ∈ dom (entries desired)) as Hin.
    { apply elem_of_dom. exists "new". reflexivity. }
    rewrite <- H in Hin. apply elem_of_managedKeys in Hin as [Hp _].
    discriminate Hp. }
  split; [exact Hkeys|]. split; [reflexivity|]. split; [reflexivity|].
  intros [H _]. exact (Hkeys H).
Qed.

(** *** First sync and failed fetch *)

(** C2. While the internal state is unset, a sync that finds the ConfigMap
    in the cluster returns success, takes the fetched ConfigMap, and with it
    its data, as the internal state, sends no update and leaves the objects
    of the cluster as they are. *)
Theorem first_sync_adopts_cluster_state c fetched key :
  statusApi_cm c = None →
  getReactor (configMaps c) = None →
  objects (configMaps c) !! statusApiConfigMap = Some fetched →
  key = "" ∨ key = statusApiConfigMap →
  ∃ c', sync key c = (None, c')
    ∧ commitStatusApiAsConfigMap c = (None, c')
    ∧ statusApi_cm c' = Some fetched
    ∧ statusApi_processed c' = statusApi_processed c
    ∧ updates (configMaps c') = updates (configMaps c)
    ∧ objects (configMaps c') = objects (configMaps c).
Proof.
  intros Hcm Hr Ho Hkey. rewrite (sync_statusApiConfigMap _ _ Hkey).
  unfold commitStatusApiAsConfigMap.
  rewrite (Get_found _ _ _ Hr Ho), Hcm, DeepCopy_id.
  eexists. split; [reflexivity|]. split; [reflexivity|]. simpl.
  split; [done|]. split; [done|]. split; [|done].
  rewrite updates_record_action. apply app_nil_r.
Qed.

Lemma first_sync_adopts_cluster_state_witness :
  ∃ c', sync "" (newUpdateStatusController (clusterWith (Some fooBar))) = (None, c')
    ∧ entries <$> statusApi_cm c' = Some fooBar
    ∧ updates (configMaps c') = [].
Proof.
  destruct (first_sync_adopts_cluster_state
              (newUpdateStatusController (clusterWith (Some fooBar))) _ ""
              eq_refl eq_refl eq_refl (or_introl eq_refl))
    as (c' & Hs & _ & Hcm & _ & Hu & _).
  exists c'. split; [exact Hs|]. split; [|exact Hu].
  rewrite Hcm. reflexivity.
Defined.

(** C3. When the fetch fails, the commit sends no update and changes
    neither the internal state nor the objects of the cluster; it returns
    success when the failure is not-found, and the failure itself
    otherwise. A sync returns what the commit returns. *)
Theorem failed_fetch_is_no_write c err cl key :
  Get statusApiConfigMap (configMaps c) = (inr err, cl) →
  key = "" ∨ key = statusApiConfigMap →
  ∃ c', sync key c = (if IsNotFound err then None else Some err, c')
    ∧ commitStatusApiAsConfigMap c = sync key c
    ∧ statusApi_cm c' = statusApi_cm c
    ∧ statusApi_processed c' = statusApi_processed c
    ∧ updates (configMaps c') = updates (configMaps c)
    ∧ objects (configMaps c') = objects (configMaps c).
Proof.
  intros HG Hkey. rewrite (sync_statusApiConfigMap _ _ Hkey).
  unfold commitStatusApiAsConfigMap. rewrite HG.
  assert (cl = (Get statusApiConfigMap (configMaps c)).2) as -> by by rewrite HG.
  exists {| configMaps := (Get statusApiConfigMap (configMaps c)).2;
            statusApi_cm := statusApi_cm c;
            statusApi_processed := statusApi_processed c |}.
  split; [by destruct (IsNotFound err)|]. split; [done|]. simpl.
  split; [done|]. split; [done|]. split; [apply updates_Get | apply objects_Get].
Qed.

(** The fetch reports not-found exactly when no failure is injected and the
    ConfigMap is absent from the cluster. *)
Lemma Get_absent name cl :
  getReactor cl = None → objects cl !! name = None →
  ∃ err, Get name cl = (inr err, record_action (GetAction name) cl)
         ∧ IsNotFound err = true.
Proof. intros Hr Ho. unfold Get. rewrite Hr, Ho. by eexists. Qed.

Lemma failed_fetch_is_no_write_witness :
  let absent := {| objects := ∅; getReactor := None; updateReactor := None;
                   actions := [] |} in
  let broken := {| objects := ∅; getReactor := Some (StatusError "Timeout" "slow");
                   updateReactor := None; actions := [] |} in
  (∃ c', sync "" (newUpdateStatusController absent) = (None, c')
         ∧ statusApi_cm c' = None ∧ updates (configMaps c') = [])
  ∧ (∃ c', sync "" (newUpdateStatusController broken)
           = (Some (StatusError "Timeout" "slow"), c')
           ∧ statusApi_cm c' = None ∧ updates (configMaps c') = []).
Proof.
  intros absent broken. split.
  - destruct (failed_fetch_is_no_write (newUpdateStatusController absent) _ _ ""
                eq_refl (or_introl eq_refl)) as (c' & Hs & _ & Hcm & _ & Hu & _).
    exists c'. split; [exact Hs|]. split; [exact Hcm | exact Hu].
  - destruct (failed_fetch_is_no_write (newUpdateStatusController broken) _ _ ""
                eq_refl (or_introl eq_refl)) as (c' & Hs & _ & Hcm & _ & Hu & _).
    exists c'. split; [exact Hs|]. split; [exact Hcm | exact Hu].
Defined.

(** *** Insights *)

(** An insight sets the entry of its uid, the uid itself being the key, and
    keeps the other entries; the state stays writable. *)
Lemma updateInsight_writable msg c :
  writable c →
  ∃ c', updateInsightInStatusApi msg c = Some c'
    ∧ writable c'
    ∧ configMaps c' = configMaps c
    ∧ desiredEntries c'
      = <[uid msg := string_of_list_byte (insight msg)]> (desiredEntries c)
    ∧ statusApi_processed c' = wrap_int (statusApi_processed c + 1).
Proof.
  unfold writable, updateInsightInStatusApi, desiredEntries.
  destruct (statusApi_cm c) as [cm|].
  - intros [d Hd]. rewrite Hd. eexists. split; [reflexivity|]. simpl.
    unfold entries. rewrite Hd. by eauto.
  - intros _. simpl. eexists. split; [reflexivity|]. simpl. by eauto.
Qed.

(** Two insights with the same uid: the second content replaces the first,
    and the counter goes up by one each time, as long as the map of the
    internal state is allocated and the counter stays below the largest
    [int]. *)
Lemma last_write_wins c id A B :
  writable c →
  int_range (statusApi_processed c) →
  (statusApi_processed c + 2 ≤ max_int)%Z →
  ∃ c1 c2,
    updateInsightInStatusApi {| uid := id; insight := A |} c = Some c1
    ∧ updateInsightInStatusApi {| uid := id; insight := B |} c1 = Some c2
    ∧ desiredEntries c2 !! id = Some (string_of_list_byte B)
    ∧ desiredEntries c2 = <[id := string_of_list_byte B]> (desiredEntries c)
    ∧ statusApi_processed c1 = (statusApi_processed c + 1)%Z
    ∧ statusApi_processed c2 = (statusApi_processed c1 + 1)%Z
    ∧ statusApi_processed c2 = (statusApi_processed c + 2)%Z.
Proof.
  intros Hw [Hlo Hhi] Hmax.
  destruct (updateInsight_writable {| uid := id; insight := A |} c Hw)
    as (c1 & H1 & Hw1 & _ & He1 & Hp1).
  destruct (updateInsight_writable {| uid := id; insight := B |} c1 Hw1)
    as (c2 & H2 & _ & _ & He2 & Hp2).
  simpl in *. exists c1, c2.
  rewrite wrap_int_small in Hp1 by (unfold max_int in *; lia).
  rewrite Hp1, wrap_int_small in Hp2 by (unfold max_int in *; lia).
  split; [done|]. split; [done|].
  split; [by rewrite He2, lookup_insert_eq|].
  split; [by rewrite He2, He1, insert_insert_eq|].
  split; [done|]. split; lia.
Qed.

Lemma last_write_wins_example :
  ∃ c1 c2,
    updateInsightInStatusApi (msgOf "x" "A")
      (newUpdateStatusController (clusterWith None)) = Some c1
    ∧ updateInsightInStatusApi (msgOf "x" "B") c1 = Some c2
    ∧ desiredEntries c2 !! "x" = Some "B"
    ∧ statusApi_processed c2 = 2%Z.
Proof.
  destruct (last_write_wins (newUpdateStatusController (clusterWith None))
              "x" (list_byte_of_string "A") (list_byte_of_string "B"))
    as (c1 & c2 & H1 & H2 & H3 & _ & _ & _ & H4).
  - exact I.
  - unfold int_range, max_int. simpl. lia.
  - unfold max_int. simpl. lia.
  - exists c1, c2. split; [exact H1|]. split; [exact H2|]. split; [exact H3 | exact H4].
Defined.

(** C4 on the code. A sync that runs before the first insight takes the
    ConfigMap of the cluster as the internal state; when that ConfigMap has
    no data, its map is nil, and the first insight then panics on the
    assignment to an entry of the nil map: no entry is stored and nothing is
    counted. The commit allocates the map in this case, the insight path
    only allocates it when the internal state is unset. *)
Theorem insight_after_adopting_ConfigMap_without_data_panics :
  ∃ c1,
    sync statusApiConfigMap (newUpdateStatusController (clusterWith None)) = (None, c1)
    ∧ statusApi_cm c1
      = Some {| Name := statusApiConfigMap; Namespace := uscNamespace; Data := None |}
    ∧ updates (configMaps c1) = []
    ∧ updateInsightInStatusApi (msgOf "x" "A") c1 = None.
Proof.
  eexists. split; [vm_compute; reflexivity|].
  split; [reflexivity|]. split; reflexivity.
Qed.

(** C9. The uid of an insight is the key of its entry, as it is. The loop
    that prunes the copy of the cluster resource deletes the keys with the
    prefix [usc-] and keeps every other entry. So an insight whose uid does
    not carry the prefix is written by the next commit under a key that is
    not managed, and a later pruning pass over the written resource keeps
    it. *)
Theorem insight_key_is_verbatim msg c fetched :
  writable c →
  getReactor (configMaps c) = None →
  objects (configMaps c) !! statusApiConfigMap = Some fetched →
  ∃ c1 written,
    updateInsightInStatusApi msg c = Some c1
    ∧ desiredEntries c1
      = <[uid msg := string_of_list_byte (insight msg)]> (desiredEntries c)
    ∧ (∀ d k, default ∅ (deleteInsightKeys d) !! k
              = (if isStatusInsightKey k then None else default ∅ d !! k))
    ∧ updates (configMaps (commitStatusApiAsConfigMap c1).2)
      = updates (configMaps c) ++ [UpdateAction written]
    ∧ entries written !! uid msg = Some (string_of_list_byte (insight msg))
    ∧ (isStatusInsightKey (uid msg) = false →
       (uid msg ∉ managedKeys written)
       ∧ default ∅ (deleteInsightKeys (Data written)) !! uid msg
         = Some (string_of_list_byte (insight msg))).
Proof.
  intros Hw Hr Ho.
  destruct (updateInsight_writable msg c Hw) as (c1 & H1 & Hw1 & Hcl & He & _).
  assert (∃ internal, statusApi_cm c1 = Some internal) as [internal Hcm].
  { unfold updateInsightInStatusApi in H1.
    destruct (Data _); [|done]. injection H1 as <-. simpl. eauto. }
  rewrite <- Hcl in Hr, Ho.
  destruct (commit_writes c1 internal fetched Hcm Hr Ho) as (err & cl & Hc & Hu).
  exists c1, (mergeInto internal fetched).
  assert (entries (mergeInto internal fetched) !! uid msg
          = Some (string_of_list_byte (insight msg))) as Hentry.
  { rewrite lookup_mergeInto. unfold desiredEntries in He. rewrite Hcm in He.
    by rewrite He, lookup_insert_eq. }
  split; [done|]. split; [done|]. split; [apply lookup_deleteInsightKeys|].
  split; [by rewrite Hc, <- Hcl|]. split; [done|].
  intros Hk. split.
  - rewrite elem_of_managedKeys. intros [Hp _]. congruence.
  - fold (entries (mergeInto internal fetched)).
    by rewrite lookup_deleteInsightKeys, Hk.
Qed.

Lemma insight_key_is_verbatim_witness :
  ∃ c1 written,
    updateInsightInStatusApi (msgOf "cv-version" "v1")
      (newUpdateStatusController (clusterWith (Some fooBar))) = Some c1
    ∧ updates (configMaps (commitStatusApiAsConfigMap c1).2) = [UpdateAction written]
    ∧ entries written !! "cv-version" = Some "v1"
    ∧ "cv-version" ∉ managedKeys written.
Proof.
  destruct (insight_key_is_verbatim (msgOf "cv-version" "v1")
              (newUpdateStatusController (clusterWith (Some fooBar))) _
              I eq_refl eq_refl)
    as (c1 & written & H1 & _ & _ & H2 & H3 & H4).
  exists c1, written. split; [exact H1|]. split; [exact H2|].
  split; [exact H3|]. exact (proj1 (H4 eq_refl)).
Defined.

End updatestatus_proofs.

(** * Properties of the summary of failed precondition checks *)

Section precondition_proofs.

Import precondition.

Lemma append_empty_r (s : string) : s +:+ "" = s.
Proof. induction s as [|c s IH]; [done|]. change (String c (s +:+ "") = String c s). by rewrite IH. Qed.

Lemma Join_bulletLines m msgs :
  internal.Join (m :: msgs) (newline +:+ "* ") = m +:+ bulletLines msgs.
Proof.
  revert m. induction msgs as [|m' msgs IH]; intros m.
  - change (internal.Join [m] (newline +:+ "* ")) with m.
    symmetry. apply append_empty_r.
  - change (internal.Join (m :: m' :: msgs) (newline +:+ "* "))
      with (m +:+ (newline +:+ "* ") +:+ internal.Join (m' :: msgs) (newline +:+ "* ")).
    by rewrite IH.
Qed.

(** The loop over [errs] appends one message per error, in order. *)
Lemma summary_msgs quote errs acc :
  fold_left (λ msgs e, msgs ++ [summaryLine quote e]) errs acc
  = acc ++ map (summaryLine quote) errs.
Proof.
  revert acc. induction errs as [|e errs IH]; intros acc; simpl.
  - by rewrite app_nil_r.
  - by rewrite IH, <- app_assoc.
Qed.

(** C10. [Summarize] returns nil exactly for the empty list. For a list
    that is not empty it returns an update error with reason
    UpgradePreconditionCheckFailed, name PreconditionCheck and no nested
    error. Its message is the rendering of the error when there is one
    error, and otherwise the heading followed by one bullet line per error,
    in the order of the list. A precondition error is rendered with its
    name and reason, quoted, before its message; any other error by its
    message. *)
Theorem Summarize_summary quote errs :
  (Summarize quote errs = None ↔ errs = [])
  ∧ (errs ≠ [] →
     ∃ msg,
       Summarize quote errs
       = Some (UpdateError None "UpgradePreconditionCheckFailed" msg "PreconditionCheck")
       ∧ msg = match errs with
               | [e] => summaryLine quote e
               | _ => "Multiple precondition checks failed:"
                      +:+ bulletLines (map (summaryLine quote) errs)
               end)
  ∧ (∀ nested reason message name,
       summaryLine quote (PreconditionError nested reason message name)
       = "Precondition " +:+ quote name +:+ " failed because of " +:+ quote reason
         +:+ ": " +:+ message)
  ∧ (∀ e, (∀ nested reason message name,
             e ≠ PreconditionError nested reason message name) →
          summaryLine quote e = Error e).
Proof.
  split; [|split; [|split]].
  - unfold Summarize. destruct errs; simpl; [done|]. split; discriminate.
  - intros Hne. unfold Summarize. destruct errs as [|e1 errs]; [done|].
    simpl (length _ =? 0)%nat. cbv iota. rewrite summary_msgs. simpl.
    eexists. split; [reflexivity|].
    destruct errs as [|e2 errs]; [done|].
    simpl map. rewrite Join_bulletLines. reflexivity.
  - reflexivity.
  - intros e He. destruct e; try reflexivity. by destruct (He Nested Reason Message Name).
Qed.

End precondition_proofs.

Lemma Summarize_summary_witness :
  ∃ msg,
    precondition.Summarize precondition.quotePlain
      [PreconditionError None "ClusterNotUpgradeable" "not upgradeable" "Upgradeable";
       errorString "timed out"]
    = Some (UpdateError None "UpgradePreconditionCheckFailed" msg "PreconditionCheck")
    ∧ msg = "Multiple precondition checks failed:"
            +:+ precondition.newline +:+ "* Precondition "
            +:+ precondition.quotePlain "Upgradeable" +:+ " failed because of "
            +:+ precondition.quotePlain "ClusterNotUpgradeable" +:+ ": not upgradeable"
            +:+ precondition.newline +:+ "* timed out".
Proof.
  destruct (proj1 (proj2 (Summarize_summary precondition.quotePlain
    [PreconditionError None "ClusterNotUpgradeable" "not upgradeable" "Upgradeable";
     errorString "timed out"])) ltac:(discriminate)) as (msg & H1 & H2).
  exists msg. split; [exact H1|]. rewrite H2. reflexivity.
Defined.

(** * Properties of the wait for a cluster operator *)

Section internal_proofs.

Import internal.

(** *** The scan of the conditions *)

Lemma scanCondition_fields s c :
  available (scanCondition s c)
  = available s || reports OperatorAvailable ConditionTrue c
  ∧ progressing (scanCondition s c)
    = progressing s && negb (reports OperatorProgressing ConditionFalse c)
  ∧ failing (scanCondition s c)
    = failing s && negb (reports OperatorFailing ConditionFalse c)
  ∧ degradedValue (scanCondition s c)
    = degradedValue s && negb (reports OperatorDegraded ConditionFalse c)
  ∧ isSome (degradedCondition (scanCondition s c))
    = isSome (degradedCondition s) || hasType OperatorDegraded c
  ∧ isSome (failingCondition (scanCondition s c))
    = isSome (failingCondition s) || hasType OperatorFailing c.
Proof.
  destruct c as [t st m], s as [a p f fc dv dc].
  unfold scanCondition, reports, hasType.
  cbn [Condition.Type_ Condition.Status available progressing failing
       failingCondition degradedValue degradedCondition].
  destruct (String.eqb_spec t OperatorAvailable) as [HA|HA];
    destruct (String.eqb_spec t OperatorProgressing) as [HP|HP];
    destruct (String.eqb_spec t OperatorFailing) as [HFa|HFa];
    destruct (String.eqb_spec t OperatorDegraded) as [HD|HD];
    try (exfalso; unfold OperatorAvailable, OperatorProgressing, OperatorFailing,
           OperatorDegraded, ConditionTrue, ConditionFalse in *; congruence);
    destruct (String.eqb_spec st ConditionTrue) as [HT|HT];
    destruct (String.eqb_spec st ConditionFalse) as [HF|HF];
    try (exfalso; unfold OperatorAvailable, OperatorProgressing, OperatorFailing,
           OperatorDegraded, ConditionTrue, ConditionFalse in *; congruence);
    cbn; destruct a, p, f, dv; repeat split; by destruct fc, dc.
Qed.

Lemma scan_fold conditions s :
  let s' := fold_left scanCondition conditions s in
  available s' = available s || existsb (reports OperatorAvailable ConditionTrue) conditions
  ∧ progressing s'
    = progressing s && negb (existsb (reports OperatorProgressing ConditionFalse) conditions)
  ∧ failing s'
    = failing s && negb (existsb (reports OperatorFailing ConditionFalse) conditions)
  ∧ degradedValue s'
    = degradedValue s && negb (existsb (reports OperatorDegraded ConditionFalse) conditions)
  ∧ isSome (degradedCondition s')
    = isSome (degradedCondition s) || existsb (hasType OperatorDegraded) conditions
  ∧ isSome (failingCondition s')
    = isSome (failingCondition s) || existsb (hasType OperatorFailing) conditions.
Proof.
  revert s. induction conditions as [|c conditions IH]; intros s; simpl.
  - rewrite !orb_false_r, !andb_true_r. by repeat split.
  - destruct (IH (scanCondition s c)) as (H1 & H2 & H3 & H4 & H5 & H6).
    destruct (scanCondition_fields s c) as (E1 & E2 & E3 & E4 & E5 & E6).
    rewrite H1, H2, H3, H4, H5, H6, E1, E2, E3, E4, E5, E6.
    rewrite !negb_orb, !orb_assoc, !andb_assoc. by repeat split.
Qed.

Lemma scanConditions_fields conditions :
  let s := scanConditions conditions in
  available s = existsb (reports OperatorAvailable ConditionTrue) conditions
  ∧ progressing s = negb (existsb (reports OperatorProgressing ConditionFalse) conditions)
  ∧ failing s = negb (existsb (reports OperatorFailing ConditionFalse) conditions)
  ∧ degradedValue s = negb (existsb (reports OperatorDegraded ConditionFalse) conditions)
  ∧ isSome (degradedCondition s) = existsb (hasType OperatorDegraded) conditions
  ∧ isSome (failingCondition s) = existsb (hasType OperatorFailing) conditions.
Proof. exact (scan_fold conditions scanStart). Qed.

Lemma degradedOf_scanConditions conditions :
  degradedOf (scanConditions conditions)
  = if existsb (hasType OperatorDegraded) conditions
    then negb (existsb (reports OperatorDegraded ConditionFalse) conditions)
    else negb (existsb (reports OperatorFailing ConditionFalse) conditions).
Proof.
  destruct (scanConditions_fields conditions) as (_ & _ & H3 & H4 & H5 & _).
  unfold degradedOf. rewrite <- H5, <- H4, <- H3.
  by destruct (degradedCondition _).
Qed.

(** *** The poll *)

Section poll.

Variable lowerRune : string → string.
Variable client : ClusterOperatorsGetter.
Variable expected : ClusterOperator.t.
Variable mode : Mode.

Lemma condition_eq call lastErr :
  condition lowerRune client expected mode call lastErr
  = ((doneAt lowerRune client expected mode call, None), if doneAt lowerRune client expected mode call then lastErr else diagnosticAt lowerRune client expected mode call).
Proof.
  unfold doneAt, diagnosticAt, condition.
  destruct (client call _) as [actual|err]; [|done].
  destruct (0 <? size _)%nat; [done|].
  by destruct (modeDone _ _ _).
Qed.

Lemma diagnosticAt_not_done call :
  doneAt lowerRune client expected mode call = false →
  ∃ nested reason message name,
    diagnosticAt lowerRune client expected mode call = Some (UpdateError nested reason message name).
Proof.
  unfold doneAt, diagnosticAt, condition.
  destruct (client call _) as [actual|err]; [|by eauto].
  destruct (0 <? size _)%nat; [by eauto|].
  destruct (modeDone _ _ _); [done|]. intros _. simpl.
  unfold notDoneError.
  destruct (match degradedCondition _ with Some c => Some c | None => _ end) as [c|];
    [destruct (String.eqb _ _)|]; by eauto.
Qed.

Lemma PollUntil_never_done start ticks s :
  (∀ k, start ≤ k < start + ticks → doneAt lowerRune client expected mode k = false) →
  PollUntil (condition lowerRune client expected mode) start ticks s
  = (Some ErrWaitTimeout,
     match ticks with 0 => s | S n => diagnosticAt lowerRune client expected mode (start + n) end).
Proof.
  revert start s. induction ticks as [|ticks IH]; intros start s Hnot; [done|].
  simpl. rewrite condition_eq, (Hnot start) by lia.
  rewrite IH by (intros k Hk; apply Hnot; lia).
  destruct ticks as [|n].
  - by rewrite Nat.add_0_r.
  - by replace (S start + n) with (start + S n) by lia.
Qed.

Lemma PollUntil_done start ticks s n :
  start ≤ n < start + ticks →
  (∀ k, start ≤ k < n → doneAt lowerRune client expected mode k = false) →
  doneAt lowerRune client expected mode n = true →
  (PollUntil (condition lowerRune client expected mode) start ticks s).1 = None.
Proof.
  revert start s. induction ticks as [|ticks IH]; intros start s Hn Hnot Hdone; [lia|].
  simpl. rewrite condition_eq.
  destruct (decide (start = n)) as [->|Hne].
  - by rewrite Hdone.
  - rewrite (Hnot start) by lia. apply IH; [lia | | done].
    intros k Hk. apply Hnot. lia.
Qed.

(** The wait returns success once a call reports done. *)
Lemma wait_done n ticks :
  n ≤ ticks →
  (∀ k, k < n → doneAt lowerRune client expected mode k = false) →
  doneAt lowerRune client expected mode n = true →
  waitForOperatorStatusToBeDone lowerRune ticks client expected mode
  = (None, [ {| eventtype := "Normal"; reason := "ClusterOperatorWaitStarted" |};
             {| eventtype := "Normal"; reason := "ClusterOperatorWaitSucceeded" |} ]).
Proof.
  intros Hn Hnot Hdone.
  unfold waitForOperatorStatusToBeDone, PollImmediateUntil.
  rewrite condition_eq.
  destruct (decide (n = 0)) as [->|Hne].
  - by rewrite Hdone.
  - rewrite (Hnot 0) by lia.
    pose proof (PollUntil_done 1 ticks (diagnosticAt lowerRune client expected mode 0) n) as H.
    destruct (PollUntil _ _ _ _) as [err lastErr]. simpl in H.
    rewrite H; [done | lia | | done].
    intros k Hk. apply Hnot. lia.
Qed.

(** The wait returns the diagnostic of its last call when the stop channel
    is closed and no call has reported done. *)
Lemma wait_cancelled ticks :
  (∀ k, k ≤ ticks → doneAt lowerRune client expected mode k = false) →
  ∃ nested reason message name,
    diagnosticAt lowerRune client expected mode ticks = Some (UpdateError nested reason message name)
    ∧ waitForOperatorStatusToBeDone lowerRune ticks client expected mode
      = (Some (UpdateError nested reason message name),
         [ {| eventtype := "Normal"; reason := "ClusterOperatorWaitStarted" |};
           {| eventtype := "Warning"; reason := "ClusterOperatorWaitFailed" |} ]).
Proof.
  intros Hnot.
  destruct (diagnosticAt_not_done ticks) as (nested & r & m & nm & Hd);
    [by apply Hnot|].
  exists nested, r, m, nm. split; [done|].
  unfold waitForOperatorStatusToBeDone, PollImmediateUntil.
  rewrite condition_eq, (Hnot 0) by lia.
  rewrite PollUntil_never_done by (intros k Hk; apply Hnot; lia).
  destruct ticks as [|n]; simpl; by rewrite Hd.
Qed.

End poll.

(** *** Conditions and modes *)

(** A call that finds no operand outstanding reports what the mode asks
    of the conditions. *)
Lemma condition_no_undone lowerRune client expected mode call lastErr actual :
  client call (ClusterOperator.Name expected) = inl actual →
  computeUndone expected actual = ∅ →
  (condition lowerRune client expected mode call lastErr).1
  = (modeDone mode expected
       (scanConditions
          (ClusterOperatorStatus.Conditions (ClusterOperator.Status actual))), None).
Proof.
  intros Hget Hundone. unfold condition. rewrite Hget, Hundone, map_size_empty.
  simpl. by destruct (modeDone _ _ _).
Qed.

(** C6. The degraded signal of a call is true unless a condition reports
    false: a Degraded condition when the conditions hold one of type
    Degraded, and a Failing condition otherwise. With Failing true,
    Degraded false, Available true and Progressing false, and no operand
    outstanding, the wait in the default mode succeeds at its first call. *)
Theorem degraded_overrides_failing :
  (∀ conditions,
     degradedOf (scanConditions conditions)
     = if existsb (hasType OperatorDegraded) conditions
       then negb (existsb (reports OperatorDegraded ConditionFalse) conditions)
       else negb (existsb (reports OperatorFailing ConditionFalse) conditions))
  ∧ (∀ lowerRune ticks client expected actual mF mD mA mP,
       client 0 (ClusterOperator.Name expected) = inl actual →
       computeUndone expected actual = ∅ →
       ClusterOperatorStatus.Conditions (ClusterOperator.Status actual)
       = [ mkCondition OperatorFailing ConditionTrue mF;
           mkCondition OperatorDegraded ConditionFalse mD;
           mkCondition OperatorAvailable ConditionTrue mA;
           mkCondition OperatorProgressing ConditionFalse mP ] →
       degradedOf (scanConditions
         (ClusterOperatorStatus.Conditions (ClusterOperator.Status actual))) = false
       ∧ failing (scanConditions
           (ClusterOperatorStatus.Conditions (ClusterOperator.Status actual))) = true
       ∧ waitForOperatorStatusToBeDone lowerRune ticks client expected DefaultMode
         = (None, [waitStarted; waitSucceeded])).
Proof.
  split; [exact degradedOf_scanConditions|].
  intros lowerRune ticks client expected actual mF mD mA mP Hget Hundone Hconds.
  rewrite Hconds. split; [reflexivity|]. split; [reflexivity|].
  apply (wait_done lowerRune client expected DefaultMode 0); [lia | intros k Hk; lia |].
  unfold doneAt. rewrite (condition_no_undone _ _ _ _ _ _ actual Hget Hundone), Hconds.
  reflexivity.
Qed.

Lemma degraded_overrides_failing_witness :
  let actual := mkOperator "etcd" [mkOperand "operator" "4.10.0"]
                  [ mkCondition OperatorFailing ConditionTrue "old";
                    mkCondition OperatorDegraded ConditionFalse "";
                    mkCondition OperatorAvailable ConditionTrue "";
                    mkCondition OperatorProgressing ConditionFalse "" ] in
  waitForOperatorStatusToBeDone (λ s, s) 3 (λ _ _, inl actual)
    (mkOperator "etcd" [mkOperand "operator" "4.10.0"] []) DefaultMode
  = (None, [waitStarted; waitSucceeded]).
Proof.
  intros actual.
  refine (proj2 (proj2 (proj2 degraded_overrides_failing (λ s, s) 3 (λ _ _, inl actual)
                          (mkOperator "etcd" [mkOperand "operator" "4.10.0"] [])
                          actual "old" "" "" "" eq_refl _ eq_refl))).
  vm_compute. reflexivity.
Defined.

(** C7. At a call that finds no operand outstanding, the wait is done in
    the initializing mode iff the operator is available and either not
    progressing or expected to report versions, whatever the degraded
    signal; in the default mode it must not be degraded either. Available
    means that a condition Available reports true, progressing that no
    condition Progressing reports false. The first call that is done ends
    the wait with success. *)
Theorem completion_by_mode lowerRune client expected mode call lastErr actual :
  client call (ClusterOperator.Name expected) = inl actual →
  computeUndone expected actual = ∅ →
  let conditions := ClusterOperatorStatus.Conditions (ClusterOperator.Status actual) in
  let available := existsb (reports OperatorAvailable ConditionTrue) conditions in
  let progressing :=
    negb (existsb (reports OperatorProgressing ConditionFalse) conditions) in
  let degraded := degradedOf (scanConditions conditions) in
  let versioned :=
    (0 <? length (ClusterOperatorStatus.Versions (ClusterOperator.Status expected)))%nat in
  let done :=
    match mode with
    | InitializingMode => available && (negb progressing || versioned)
    | DefaultMode => available && (negb progressing || versioned) && negb degraded
    end in
  (condition lowerRune client expected mode call lastErr).1 = (done, None)
  ∧ (done = true →
     (∀ k, k < call → doneAt lowerRune client expected mode k = false) →
     ∀ ticks, call ≤ ticks →
       waitForOperatorStatusToBeDone lowerRune ticks client expected mode
       = (None, [waitStarted; waitSucceeded])).
Proof.
  intros Hget Hundone conditions av pr dg versioned done.
  assert (modeDone mode expected (scanConditions conditions) = done) as Hdone.
  { destruct (scanConditions_fields conditions) as (H1 & H2 & _).
    unfold modeDone, done. fold versioned. rewrite H1, H2. by destruct mode. }
  split.
  - rewrite (condition_no_undone _ _ _ _ _ _ actual Hget Hundone).
    fold conditions. by rewrite Hdone.
  - intros Htrue Hnot ticks Hticks.
    apply (wait_done lowerRune client expected mode call); [done | done |].
    unfold doneAt. rewrite (condition_no_undone _ _ _ _ _ _ actual Hget Hundone).
    fold conditions. by rewrite Hdone.
Qed.

Lemma completion_by_mode_witness :
  let actual := mkOperator "etcd" []
                  [ mkCondition OperatorAvailable ConditionTrue "";
                    mkCondition OperatorProgressing ConditionFalse "";
                    mkCondition OperatorDegraded ConditionTrue "disk" ] in
  (condition (λ s, s) (λ _ _, inl actual) (mkOperator "etcd" [] []) InitializingMode
     0 None).1 = (true, None)
  ∧ (condition (λ s, s) (λ _ _, inl actual) (mkOperator "etcd" [] []) DefaultMode
       0 None).1 = (false, None).
Proof.
  intros actual. split.
  - exact (proj1 (completion_by_mode (λ s, s) (λ _ _, inl actual)
                    (mkOperator "etcd" [] []) InitializingMode 0 None actual
                    eq_refl eq_refl)).
  - exact (proj1 (completion_by_mode (λ s, s) (λ _ _, inl actual)
                    (mkOperator "etcd" [] []) DefaultMode 0 None actual
                    eq_refl eq_refl)).
Defined.

(** C8. When the stop channel is closed before any call has reported done,
    the wait returns the diagnostic recorded by its last call, which every
    such call records. Once the poll has timed out, the function returns
    the last diagnostic when there is one and the time-out error of the
    poll only when there is none. *)
Theorem cancelled_wait_returns_last_diagnostic lowerRune client expected mode ticks :
  (∀ k, k ≤ ticks → doneAt lowerRune client expected mode k = false) →
  (∃ nested reason message name,
     diagnosticAt lowerRune client expected mode ticks
     = Some (UpdateError nested reason message name)
     ∧ waitForOperatorStatusToBeDone lowerRune ticks client expected mode
       = (Some (UpdateError nested reason message name), [waitStarted; waitFailed]))
  ∧ (∀ last, waitResult (Some ErrWaitTimeout) (Some last)
             = (Some last, [waitStarted; waitFailed]))
  ∧ waitResult (Some ErrWaitTimeout) None
    = (Some ErrWaitTimeout, [waitStarted; waitFailed]).
Proof.
  intros Hnot. split; [|by split].
  exact (wait_cancelled lowerRune client expected mode ticks Hnot).
Qed.

Lemma cancelled_wait_returns_last_diagnostic_witness :
  ∃ nested,
    waitForOperatorStatusToBeDone (λ s, s) 2
      (λ _ _, inr (StatusError "ServiceUnavailable" "try again"))
      (mkOperator "X" [] []) DefaultMode
    = (Some (UpdateError nested "ClusterOperatorNotAvailable"
               "Cluster operator X has not yet reported success" "X"),
       [waitStarted; waitFailed]).
Proof.
  destruct (proj1 (cancelled_wait_returns_last_diagnostic (λ s, s)
                     (λ _ _, inr (StatusError "ServiceUnavailable" "try again"))
                     (mkOperator "X" [] []) DefaultMode 2 (λ k _, eq_refl)))
    as (nested & r & m & nm & Hd & Hw).
  injection Hd as <- <- <- <-.
  eexists. exact Hw.
Defined.

(** *** Operand versions *)

#[local] Instance string_le_total : Total string_le.
Proof. intros a b. apply String.leb_total. Qed.

Lemma lookupVersion_app name l1 l2 :
  lookupVersion name (l1 ++ l2)
  = match lookupVersion name l1 with
    | Some v => Some v
    | None => lookupVersion name l2
    end.
Proof.
  induction l1 as [|op l1 IH]; simpl; [done|].
  by destruct (String.eqb _ _).
Qed.

Lemma matchActual_lookup expOp actuals (undone : gmap string (list string)) n :
  undone !! OperandVersion.Name expOp = Some [OperandVersion.Version expOp] →
  matchActual expOp actuals undone !! n
  = if decide (n = OperandVersion.Name expOp)
    then undoneTuple (OperandVersion.Version expOp)
           (lookupVersion (OperandVersion.Name expOp) actuals)
    else undone !! n.
Proof.
  intros Hu. induction actuals as [|actOp rest IH]; simpl.
  - case_decide; [by subst|done].
  - destruct (String.eqb (OperandVersion.Name actOp) (OperandVersion.Name expOp));
      [|exact IH].
    rewrite Hu. simpl.
    destruct (String.eqb (OperandVersion.Version actOp) (OperandVersion.Version expOp)).
    + case_decide as Hn; [subst; by rewrite lookup_delete_eq|].
      by rewrite lookup_delete_ne, lookup_insert_ne.
    + case_decide as Hn; [subst; by rewrite lookup_insert_eq|].
      by rewrite lookup_insert_ne.
Qed.

Lemma undoneStep_lookup actuals (undone : gmap string (list string)) expOp n :
  undoneStep actuals undone expOp !! n
  = if decide (n = OperandVersion.Name expOp)
    then undoneTuple (OperandVersion.Version expOp)
           (lookupVersion (OperandVersion.Name expOp) actuals)
    else undone !! n.
Proof.
  unfold undoneStep. rewrite matchActual_lookup by apply lookup_insert_eq.
  case_decide; [done|]. by rewrite lookup_insert_ne.
Qed.

Lemma fold_undoneStep_lookup actuals exps (undone : gmap string (list string)) n :
  fold_left (undoneStep actuals) exps undone !! n
  = match lookupVersion n (rev exps) with
    | Some ev => undoneTuple ev (lookupVersion n actuals)
    | None => undone !! n
    end.
Proof.
  revert undone. induction exps as [|e exps IH]; intros undone; simpl; [done|].
  rewrite IH, lookupVersion_app, undoneStep_lookup.
  destruct (lookupVersion n (rev exps)); [done|]. simpl.
  destruct (String.eqb_spec (OperandVersion.Name e) n) as [<-|Hne].
  - by rewrite decide_True.
  - by rewrite decide_False.
Qed.

(** An operand is kept in [undone] iff the actual version under its name
    is not the expected one. *)
Lemma computeUndone_lookup expected actual n :
  computeUndone expected actual !! n
  = match lookupVersion n
            (rev (ClusterOperatorStatus.Versions (ClusterOperator.Status expected))) with
    | Some ev =>
        undoneTuple ev
          (lookupVersion n
             (ClusterOperatorStatus.Versions (ClusterOperator.Status actual)))
    | None => None
    end.
Proof. unfold computeUndone. by rewrite fold_undoneStep_lookup, lookup_empty. Qed.

(** A tuple has one entry, or the expected and the actual version. *)
Lemma computeUndone_tuple expected actual n ver :
  computeUndone expected actual !! n = Some ver →
  ∃ ev, ver = [ev] ∨ ∃ av, ver = [ev; av].
Proof.
  rewrite computeUndone_lookup. destruct (lookupVersion n (rev _)) as [ev|]; [|done].
  unfold undoneTuple. destruct (lookupVersion n _) as [av|].
  - destruct (String.eqb av ev); [done|]. intros [= <-]. eauto.
  - intros [= <-]. eauto.
Qed.

Lemma undoneTuple_is_Some ev a :
  is_Some (undoneTuple ev a) ↔ a ≠ Some ev.
Proof.
  unfold undoneTuple. destruct a as [av|].
  - destruct (String.eqb_spec av ev) as [->|Hne].
    + split; [by intros [? ?]|done].
    + split; [congruence|eauto].
  - split; [done|eauto].
Qed.

Lemma operandReport_undoneTuple n ev a ver :
  undoneTuple ev a = Some ver → operandReport n ver = reportFor n ev a.
Proof.
  unfold undoneTuple. destruct a as [av|].
  - destruct (String.eqb av ev); [done|]. by intros [= <-].
  - by intros [= <-].
Qed.

Lemma lookupVersion_NoDup (l : list OperandVersion.t) op :
  NoDup (OperandVersion.Name <$> l) → op ∈ l →
  lookupVersion (OperandVersion.Name op) (rev l) = Some (OperandVersion.Version op).
Proof.
  induction l as [|e l IH]; intros Hnd Hin; [by apply elem_of_nil in Hin|].
  simpl in *. apply NoDup_cons in Hnd as [Hnotin Hnd].
  rewrite lookupVersion_app. apply elem_of_cons in Hin as [->|Hin].
  - destruct (lookupVersion (OperandVersion.Name e) (rev l)) as [v|] eqn:Hl.
    + exfalso. apply Hnotin. clear -Hl.
      assert (∀ l' v, lookupVersion (OperandVersion.Name e) l' = Some v →
                      OperandVersion.Name e ∈ OperandVersion.Name <$> l') as Hfind.
      { induction l' as [|x l' IH']; simpl; [done|]. intros v'.
        destruct (String.eqb_spec (OperandVersion.Name x) (OperandVersion.Name e))
          as [Heq|_].
        - intros _. rewrite Heq. by left.
        - intros H. right. by eapply IH'. }
      apply Hfind in Hl. apply list_elem_of_fmap in Hl as (x & Hx & Hxin).
      apply list_elem_of_fmap. exists x. split; [done|].
      apply list_elem_of_In, in_rev. by apply list_elem_of_In.
    + simpl. by rewrite String.eqb_refl.
  - by rewrite (IH Hnd Hin).
Qed.

(** *** The report *)

Lemma buildReports_filter (undone : gmap string (list string)) keys :
  buildReports undone keys
  = (λ op, operandReport op (default [] (undone !! op)))
    <$> filter (λ op, op ≠ "operator") keys.
Proof.
  unfold buildReports.
  assert (∀ acc,
    fold_left (λ reports op,
       if String.eqb op "operator" then reports
       else reports ++ [operandReport op (default [] (undone !! op))]) keys acc
    = acc ++ ((λ op, operandReport op (default [] (undone !! op)))
              <$> filter (λ op, op ≠ "operator") keys)) as H.
  { induction keys as [|k keys IH]; intros acc; simpl; [by rewrite app_nil_r|].
    rewrite IH. destruct (String.eqb_spec k "operator") as [->|Hne].
    - by rewrite filter_cons_False by (intros H; by apply H).
    - rewrite filter_cons_True by done. by rewrite <- app_assoc. }
  apply H.
Qed.

Lemma undoneKeys_sorted (undone : gmap string (list string)) :
  Sorted string_le (undoneKeys undone)
  ∧ NoDup (undoneKeys undone)
  ∧ ∀ n, n ∈ undoneKeys undone ↔ n ∈ dom undone.
Proof.
  unfold undoneKeys, sort_Strings.
  split; [apply Sorted_merge_sort, _|]. split.
  - rewrite merge_sort_Permutation. apply NoDup_fst_map_to_list.
  - intros n. rewrite merge_sort_Permutation, elem_of_dom, list_elem_of_fmap. split.
    + intros ([k v] & -> & Hin). apply elem_of_map_to_list in Hin. eauto.
    + intros [v Hv]. exists (n, v). split; [done|]. by apply elem_of_map_to_list.
Qed.

(** A call that finds an operand outstanding is not done and records that
    the operator is still updating. *)
Lemma condition_undone lowerRune client expected mode call lastErr actual :
  client call (ClusterOperator.Name expected) = inl actual →
  computeUndone expected actual ≠ ∅ →
  let undone := computeUndone expected actual in
  let message :=
    stillUpdatingMessage (ClusterOperator.Name actual)
      (buildReports undone (undoneKeys undone)) in
  condition lowerRune client expected mode call lastErr
  = ((false, None),
     Some (UpdateError (Some (errorString (lowerFirst lowerRune message)))
             "ClusterOperatorNotAvailable" message (ClusterOperator.Name actual))).
Proof.
  intros Hget Hne undone message. unfold condition. rewrite Hget.
  apply map_size_non_empty_iff in Hne.
  destruct (size (computeUndone expected actual)) eqn:Hsize; [done|].
  reflexivity.
Qed.

Lemma buildReports_reportFor expected actual :
  let exps := ClusterOperatorStatus.Versions (ClusterOperator.Status expected) in
  let acts := ClusterOperatorStatus.Versions (ClusterOperator.Status actual) in
  let undone := computeUndone expected actual in
  buildReports undone (undoneKeys undone)
  = (λ n, reportFor n (default "" (lookupVersion n (rev exps))) (lookupVersion n acts))
    <$> filter (λ n, n ≠ "operator") (undoneKeys undone).
Proof.
  intros exps acts undone. rewrite buildReports_filter.
  apply Forall_fmap_ext_1, Forall_forall. intros n Hn.
  apply list_elem_of_filter in Hn as [_ Hn].
  apply undoneKeys_sorted, elem_of_dom in Hn as [ver Hver].
  rewrite Hver. simpl. unfold undone in Hver.
  rewrite computeUndone_lookup in Hver. fold exps acts in Hver.
  destruct (lookupVersion n (rev exps)) as [ev|]; [|done].
  simpl. by apply operandReport_undoneTuple.
Qed.

(** C5, as amended. At a call that fetches the operator, the versions are
    looked up by name: the last expected entry and the first actual entry
    with a name decide, and an operand is undone iff the actual versions do
    not give, under its name, the version that the last expected entry with
    that name expects. So when the names of the expected operands are
    pairwise distinct, an expected operand is undone iff the actual
    versions do not name it, which is reported as missing version
    information, or give another version under its name, which is reported
    as an upgrade from the actual to the expected version. When an operand
    is undone the call is not done and records
    ClusterOperatorNotAvailable; its message joins the reports of the
    undone operands in ascending order of their names, leaving out the one
    named operator, which blocks like any other. With operator and
    kube-apiserver expected at 4.10.0 and kube-apiserver actually at 4.9.5,
    the call is not done and the message reports only the upgrade of
    kube-apiserver from 4.9.5 to 4.10.0. *)
Theorem undone_operands_block_completion
    lowerRune client expected mode call lastErr actual :
  client call (ClusterOperator.Name expected) = inl actual →
  let exps := ClusterOperatorStatus.Versions (ClusterOperator.Status expected) in
  let acts := ClusterOperatorStatus.Versions (ClusterOperator.Status actual) in
  let undone := computeUndone expected actual in
  let keys := undoneKeys undone in
  let reports :=
    (λ n, reportFor n (default "" (lookupVersion n (rev exps))) (lookupVersion n acts))
    <$> filter (λ n, n ≠ "operator") keys in
  let notAvailable message :=
    ((false, None),
     Some (UpdateError (Some (errorString (lowerFirst lowerRune message)))
             "ClusterOperatorNotAvailable" message (ClusterOperator.Name actual))) in
  (∀ n, n ∈ dom undone
        ↔ ∃ ev, lookupVersion n (rev exps) = Some ev ∧ lookupVersion n acts ≠ Some ev)
  ∧ (NoDup (OperandVersion.Name <$> exps) →
     ∀ op, op ∈ exps →
       (OperandVersion.Name op ∈ dom undone
        ↔ lookupVersion (OperandVersion.Name op) acts = None
          ∨ ∃ av, lookupVersion (OperandVersion.Name op) acts = Some av
                  ∧ av ≠ OperandVersion.Version op)
       ∧ lookupVersion (OperandVersion.Name op) (rev exps)
         = Some (OperandVersion.Version op))
  ∧ Sorted string_le keys
  ∧ NoDup keys
  ∧ (∀ n, n ∈ keys ↔ n ∈ dom undone)
  ∧ (undone ≠ ∅ →
     condition lowerRune client expected mode call lastErr
     = notAvailable
         (if (0 <? length reports)%nat
          then "Cluster operator " +:+ ClusterOperator.Name actual
               +:+ " is still updating: " +:+ Join reports ", "
          else "Cluster operator " +:+ ClusterOperator.Name actual
               +:+ " is still updating"))
  ∧ (exps = [mkOperand "operator" "4.10.0"; mkOperand "kube-apiserver" "4.10.0"] →
     acts = [mkOperand "operator" "4.10.0"; mkOperand "kube-apiserver" "4.9.5"] →
     reports = ["upgrading kube-apiserver from 4.9.5 to 4.10.0"]
     ∧ condition lowerRune client expected mode call lastErr
       = notAvailable
           ("Cluster operator " +:+ ClusterOperator.Name actual
            +:+ " is still updating: upgrading kube-apiserver from 4.9.5 to 4.10.0")).
Proof.
  intros Hget exps acts undone keys reports notAvailable.
  assert (∀ n, n ∈ dom undone
               ↔ ∃ ev, lookupVersion n (rev exps) = Some ev
                       ∧ lookupVersion n acts ≠ Some ev) as Hdom.
  { intros n. rewrite elem_of_dom. unfold undone. rewrite computeUndone_lookup.
    fold exps acts. destruct (lookupVersion n (rev exps)) as [ev|].
    - rewrite undoneTuple_is_Some. split; [by eauto|]. by intros (? & [= <-] & ?).
    - split; [by intros [? ?] | by intros (? & ? & ?)]. }
  assert (undone ≠ ∅ →
          condition lowerRune client expected mode call lastErr
          = notAvailable (stillUpdatingMessage (ClusterOperator.Name actual) reports))
    as Hdiag.
  { intros Hne. rewrite (condition_undone _ _ _ _ _ _ actual Hget Hne).
    unfold reports, keys, undone, exps, acts.
    by rewrite <- (buildReports_reportFor expected actual). }
  destruct (undoneKeys_sorted undone) as (Hsorted & Hnodup & Hkeys).
  split; [exact Hdom|]. split; [|split; [done|split; [done|split; [done|split]]]].
  - intros Hnd op Hop.
    pose proof (lookupVersion_NoDup exps op Hnd Hop) as Hlast.
    split; [|done]. rewrite Hdom. split.
    + intros (ev & Hev & Hact). rewrite Hlast in Hev. injection Hev as <-.
      destruct (lookupVersion (OperandVersion.Name op) acts) as [av|]; [|by left].
      right. exists av. split; [done|]. congruence.
    + intros Hact. exists (OperandVersion.Version op). split; [done|].
      destruct Hact as [-> | (av & -> & Hav)]; congruence.
  - exact Hdiag.
  - intros Hexps Hacts.
    assert (undone = {[ "kube-apiserver" := ["4.10.0"; "4.9.5"] ]}) as Hundone.
    { unfold undone, computeUndone. fold exps acts. rewrite Hexps, Hacts.
      vm_compute. reflexivity. }
    assert (reports = ["upgrading kube-apiserver from 4.9.5 to 4.10.0"]) as Hreports.
    { unfold reports, keys. rewrite Hundone, Hexps, Hacts. vm_compute. reflexivity. }
    split; [exact Hreports|].
    rewrite Hdiag, Hreports; [reflexivity|].
    rewrite Hundone. apply insert_non_empty.
Qed.

Lemma undone_operands_block_completion_witness :
  let expected := mkOperator "kube-apiserver"
                    [mkOperand "operator" "4.10.0"; mkOperand "kube-apiserver" "4.10.0"]
                    [] in
  let actual := mkOperator "kube-apiserver"
                  [mkOperand "operator" "4.10.0"; mkOperand "kube-apiserver" "4.9.5"]
                  [mkCondition OperatorAvailable ConditionTrue ""] in
  condition (λ s, s) (λ _ _, inl actual) expected DefaultMode 0 None
  = ((false, None),
     Some (UpdateError
             (Some (errorString
                "cluster operator kube-apiserver is still updating: upgrading kube-apiserver from 4.9.5 to 4.10.0"))
             "ClusterOperatorNotAvailable"
             "Cluster operator kube-apiserver is still updating: upgrading kube-apiserver from 4.9.5 to 4.10.0"
             "kube-apiserver"))
  ∧ "kube-apiserver" ∈ dom (computeUndone expected actual)
  ∧ "operator" ∉ dom (computeUndone expected actual).
Proof.
  intros expected actual.
  pose proof (undone_operands_block_completion (λ s, s) (λ _ _, inl actual) expected
                DefaultMode 0 None actual eq_refl)
    as (_ & Hdistinct & _ & _ & _ & _ & Hexample).
  assert (NoDup (OperandVersion.Name
                   <$> ClusterOperatorStatus.Versions (ClusterOperator.Status expected)))
    as Hnodup.
  { apply NoDup_cons. split.
    - intros Hin. apply list_elem_of_singleton in Hin. discriminate Hin.
    - apply NoDup_singleton. }
  split; [exact (proj2 (Hexample eq_refl eq_refl))|]. split.
  - apply (proj1 (Hdistinct Hnodup (mkOperand "kube-apiserver" "4.10.0")
                    ltac:(right; left))).
    right. exists "4.9.5". split; [reflexivity | discriminate].
  - intros Hin.
    apply (proj1 (Hdistinct Hnodup (mkOperand "operator" "4.10.0") ltac:(left))) in Hin.
    destruct Hin as [Hin | (av & Hav & Hne)]; [discriminate Hin|].
    injection Hav as <-. by apply Hne.
Defined.

(** The operand named operator blocks the completion although nothing is
    reported for it. *)
Example operator_alone_blocks :
  let expected := mkOperator "etcd" [mkOperand "operator" "4.10.0"] [] in
  let actual := mkOperator "etcd" [mkOperand "operator" "4.9.5"]
                  [ mkCondition OperatorAvailable ConditionTrue "";
                    mkCondition OperatorProgressing ConditionFalse "";
                    mkCondition OperatorDegraded ConditionFalse "" ] in
  condition (λ s, s) (λ _ _, inl actual) expected DefaultMode 0 None
  = ((false, None),
     Some (UpdateError
             (Some (errorString "cluster operator etcd is still updating"))
             "ClusterOperatorNotAvailable"
             "Cluster operator etcd is still updating" "etcd")).
Proof. vm_compute. reflexivity. Qed.

(** With an operand named twice in the expected versions, the last entry
    decides: here the wait is done although the first entry expects a
    version that the operator does not report. *)
Example repeated_expected_operand :
  let expected := mkOperator "etcd" [mkOperand "etcd" "2"; mkOperand "etcd" "1"] [] in
  let actual := mkOperator "etcd" [mkOperand "etcd" "1"]
                  [ mkCondition OperatorAvailable ConditionTrue "";
                    mkCondition OperatorProgressing ConditionFalse "";
                    mkCondition OperatorDegraded ConditionFalse "" ] in
  computeUndone expected actual = ∅
  ∧ condition (λ s, s) (λ _ _, inl actual) expected DefaultMode 0 None
    = ((true, None), None).
Proof. split; vm_compute; reflexivity. Qed.

(** C5, as stated, fails when a name is repeated in the expected versions.
    With etcd expected at 2 and then at 1, and etcd actually at 1, the
    expected operand etcd at 2 is present with another version, yet nothing
    is undone and the call is done: the second entry has overwritten and
    then deleted the tuple that the first one left. *)
Lemma undone_operands_counterexample :
  let expected := mkOperator "etcd" [mkOperand "etcd" "2"; mkOperand "etcd" "1"] [] in
  let actual := mkOperator "etcd" [mkOperand "etcd" "1"]
                  [ mkCondition OperatorAvailable ConditionTrue "";
                    mkCondition OperatorProgressing ConditionFalse "";
                    mkCondition OperatorDegraded ConditionFalse "" ] in
  let exps := ClusterOperatorStatus.Versions (ClusterOperator.Status expected) in
  let acts := ClusterOperatorStatus.Versions (ClusterOperator.Status actual) in
  mkOperand "etcd" "2" ∈ exps
  ∧ lookupVersion "etcd" acts = Some "1"
  ∧ ("etcd" ∉ dom (computeUndone expected actual))
  ∧ condition (λ s, s) (λ _ _, inl actual) expected DefaultMode 0 None
    = ((true, None), None)
  ∧ ¬ (∀ op, op ∈ exps →
         ((OperandVersion.Name op) ∈ dom (computeUndone expected actual)
          ↔ lookupVersion (OperandVersion.Name op) acts = None
            ∨ ∃ av, lookupVersion (OperandVersion.Name op) acts = Some av
                    ∧ av ≠ OperandVersion.Version op)).
Proof.
  intros expected actual exps acts.
  assert (computeUndone expected actual = ∅) as Hempty by (vm_compute; reflexivity).
  assert (mkOperand "etcd" "2" ∈ exps) as Hin by left.
  split; [exact Hin|]. split; [reflexivity|]. split.
  - rewrite Hempty, dom_empty_L. apply not_elem_of_empty.
  - split; [vm_compute; reflexivity|].
    intros Hclaim. specialize (Hclaim (mkOperand "etcd" "2") Hin).
    rewrite Hempty, dom_empty_L in Hclaim.
    apply (not_elem_of_empty (C := gset string) "etcd"), Hclaim.
    right. exists "1". split; [reflexivity | discriminate].
Qed.

End internal_proofs.

(** * Further properties of the update status controller *)

Section updatestatus_more.

Import updatestatus.

(** *** Events, keys and syncs *)

(** X1. The event filter accepts exactly the ConfigMaps of its namespace,
    and for every object it accepts the key function returns the name of
    the ConfigMap as the only key, without ending the process. *)
Theorem filtered_event_has_one_key namespace obj :
  (nsFilter namespace obj = true
   ↔ ∃ o, obj = configMapObject o ∧ Namespace o = namespace)
  ∧ (nsFilter namespace obj = true →
     ∃ o, obj = configMapObject o ∧ cmNameKey obj = Some [Name o]).
Proof.
  destruct obj as [|o|kind]; simpl.
  - split; [split; [done | by intros (? & ? & ?)] | done].
  - split.
    + rewrite String.eqb_eq. split; [by eauto|]. by intros (? & [= <-] & ?).
    + by eauto.
  - split; [split; [done | by intros (? & ? & ?)] | done].
Qed.

Lemma filtered_event_has_one_key_witness :
  ∃ o, configMapObject {| Name := "other"; Namespace := uscNamespace; Data := None |}
       = configMapObject o
       ∧ cmNameKey (configMapObject
                      {| Name := "other"; Namespace := uscNamespace; Data := None |})
         = Some [Name o].
Proof.
  exact (proj2 (filtered_event_has_one_key uscNamespace
                  (configMapObject
                     {| Name := "other"; Namespace := uscNamespace; Data := None |}))
           eq_refl).
Defined.

(** X2. A sync for the key of an event on another ConfigMap of the
    namespace returns success without any call of the client and leaves the
    controller as it is; a sync for the key of an event on the ConfigMap of
    the status API is the commit, and so is the periodic sync with the empty
    key. *)
Theorem sync_by_event_key o c :
  (Name o ≠ "" → Name o ≠ statusApiConfigMap →
   ∀ key, cmNameKey (configMapObject o) = Some [key] → sync key c = (None, c))
  ∧ (Name o = statusApiConfigMap →
     ∀ key, cmNameKey (configMapObject o) = Some [key] →
            sync key c = commitStatusApiAsConfigMap c)
  ∧ sync "" c = commitStatusApiAsConfigMap c.
Proof.
  split; [|split; [|done]].
  - intros H1 H2 key [= <-]. by apply sync_other_key.
  - intros Hn key [= <-]. apply sync_statusApiConfigMap. by right.
Qed.

Lemma sync_by_event_key_witness :
  let c := newUpdateStatusController (clusterWith (Some fooBar)) in
  sync "kube-root-ca.crt" c = (None, c)
  ∧ actions (configMaps (sync "kube-root-ca.crt" c).2) = [].
Proof.
  intros c.
  pose proof (proj1 (sync_by_event_key
                       {| Name := "kube-root-ca.crt"; Namespace := uscNamespace;
                          Data := None |} c)
                ltac:(discriminate) ltac:(discriminate) "kube-root-ca.crt" eq_refl) as H.
  split; [exact H|]. rewrite H. reflexivity.
Defined.

(** *** Commits *)

Lemma overlay_Some_dst src d : is_Some (overlay src (Some d)).
Proof.
  destruct src as [s|]; simpl; [|by eauto].
  apply (map_fold_weak_ind (λ r _, is_Some r)); by eauto.
Qed.

Lemma mergeInto_self o : mergeInto o o = o.
Proof.
  destruct o as [n ns d]. unfold mergeInto. simpl. f_equal.
  destruct d as [m|]; [|done].
  destruct (overlay_Some_dst (Some m)
              (map_fold (λ k _ acc, if isStatusInsightKey k then delete k acc else acc)
                 m m)) as [m' Hm'].
  change (overlay (Some m) (deleteInsightKeys (Some m)) = Some m).
  change (overlay (Some m) (deleteInsightKeys (Some m)) = Some m') in Hm'.
  rewrite Hm'. f_equal. apply map_eq. intros k.
  pose proof (lookup_overlay (Some m) (deleteInsightKeys (Some m)) k) as H.
  rewrite Hm', lookup_deleteInsightKeys in H. simpl in H. rewrite H.
  destruct (m !! k) eqn:Hk; [done|]. by destruct (isStatusInsightKey k).
Qed.

Lemma Update_stored o cl old :
  updateReactor cl = None → objects cl !! Name o = Some old →
  Update o cl
  = (None, {| objects := <[Name o := o]> (objects cl); getReactor := getReactor cl;
              updateReactor := None; actions := actions cl ++ [UpdateAction o] |}).
Proof. intros Hr Ho. unfold Update. rewrite Hr, Ho. simpl. by rewrite Hr. Qed.

Lemma Update_failed o cl e :
  updateReactor cl = Some e →
  Update o cl = (Some e, record_action (UpdateAction o) cl).
Proof. intros Hr. unfold Update. by rewrite Hr. Qed.

(** A commit with internal state, a ConfigMap in the cluster and a working
    update. *)
Lemma commit_stored c internal fetched :
  statusApi_cm c = Some internal →
  getReactor (configMaps c) = None →
  updateReactor (configMaps c) = None →
  objects (configMaps c) !! statusApiConfigMap = Some fetched →
  Name fetched = statusApiConfigMap →
  commitStatusApiAsConfigMap c
  = (None,
     {| configMaps :=
          {| objects := <[statusApiConfigMap := mergeInto internal fetched]>
                          (objects (configMaps c));
             getReactor := None; updateReactor := None;
             actions := (actions (configMaps c) ++ [GetAction statusApiConfigMap])
                        ++ [UpdateAction (mergeInto internal fetched)] |};
        statusApi_cm := Some (mergeInto internal fetched);
        statusApi_processed := statusApi_processed c |}).
Proof.
  intros Hcm Hg Hu Ho Hn. unfold commitStatusApiAsConfigMap.
  rewrite (Get_found _ _ _ Hg Ho), Hcm.
  rewrite (Update_stored _ _ fetched); simpl; [| done | by rewrite Hn].
  by rewrite Hn, Hg.
Qed.

(** X3. A commit whose update succeeds leaves the merged resource both in
    the cluster and as the internal state, and it is a fixed point: a
    second commit sends the same resource again and changes neither the
    internal state nor the objects of the cluster. *)
Theorem commit_is_fixed_point c internal fetched :
  statusApi_cm c = Some internal →
  getReactor (configMaps c) = None →
  updateReactor (configMaps c) = None →
  objects (configMaps c) !! statusApiConfigMap = Some fetched →
  Name fetched = statusApiConfigMap →
  let written := mergeInto internal fetched in
  ∃ c1 c2,
    commitStatusApiAsConfigMap c = (None, c1)
    ∧ statusApi_cm c1 = Some written
    ∧ objects (configMaps c1) = <[statusApiConfigMap := written]> (objects (configMaps c))
    ∧ commitStatusApiAsConfigMap c1 = (None, c2)
    ∧ statusApi_cm c2 = Some written
    ∧ objects (configMaps c2) = objects (configMaps c1)
    ∧ updates (configMaps c2)
      = updates (configMaps c) ++ [UpdateAction written; UpdateAction written].
Proof.
  intros Hcm Hg Hu Ho Hn written.
  rewrite (commit_stored c internal fetched Hcm Hg Hu Ho Hn). fold written.
  eexists _, _. split; [reflexivity|]. simpl. split; [done|]. split; [done|].
  rewrite (commit_stored _ written written); simpl;
    [| done | done | done | by rewrite lookup_insert_eq | done].
  rewrite mergeInto_self. split; [reflexivity|]. simpl.
  split; [done|]. split; [by rewrite insert_insert_eq|].
  unfold updates. simpl. rewrite !List.filter_app. simpl.
  by rewrite !app_nil_r, <- app_assoc.
Qed.

Lemma commit_is_fixed_point_witness :
  let c := {| configMaps := clusterWith (Some fooBar);
              statusApi_cm := Some {| Name := ""; Namespace := "";
                                      Data := Some {[ "usc-cv" := "v1" ]} |};
              statusApi_processed := 1 |} in
  ∃ c1 c2,
    commitStatusApiAsConfigMap c = (None, c1)
    ∧ commitStatusApiAsConfigMap c1 = (None, c2)
    ∧ statusApi_cm c2 = statusApi_cm c1
    ∧ objects (configMaps c2) = objects (configMaps c1).
Proof.
  intros c.
  destruct (commit_is_fixed_point c _ _ eq_refl eq_refl eq_refl eq_refl eq_refl)
    as (c1 & c2 & H1 & H2 & _ & H3 & H4 & H5 & _).
  exists c1, c2. split; [exact H1|]. split; [exact H3|].
  split; [by rewrite H2, H4 | exact H5].
Defined.

(** X4. When the update fails, the commit returns the failure and the
    objects of the cluster stay as they are, but the internal state has
    already been replaced by the merged resource. *)
Theorem commit_update_failure c internal fetched e :
  statusApi_cm c = Some internal →
  getReactor (configMaps c) = None →
  updateReactor (configMaps c) = Some e →
  objects (configMaps c) !! statusApiConfigMap = Some fetched →
  ∃ c1,
    commitStatusApiAsConfigMap c = (Some e, c1)
    ∧ objects (configMaps c1) = objects (configMaps c)
    ∧ statusApi_cm c1 = Some (mergeInto internal fetched)
    ∧ statusApi_processed c1 = statusApi_processed c
    ∧ updates (configMaps c1)
      = updates (configMaps c) ++ [UpdateAction (mergeInto internal fetched)].
Proof.
  intros Hcm Hg Hu Ho. unfold commitStatusApiAsConfigMap.
  rewrite (Get_found _ _ _ Hg Ho), Hcm, (Update_failed _ _ e) by done.
  eexists. split; [reflexivity|]. simpl. split; [done|]. split; [done|].
  split; [done|]. unfold updates. simpl. rewrite !List.filter_app. simpl.
  by rewrite app_nil_r.
Qed.

Lemma commit_update_failure_witness :
  let cl := {| objects := objects (clusterWith (Some fooBar)); getReactor := None;
               updateReactor := Some (StatusError "Conflict" "object was modified");
               actions := [] |} in
  let c := {| configMaps := cl;
              statusApi_cm := Some {| Name := ""; Namespace := "";
                                      Data := Some {[ "usc-cv" := "v1" ]} |};
              statusApi_processed := 1 |} in
  ∃ c1,
    commitStatusApiAsConfigMap c
    = (Some (StatusError "Conflict" "object was modified"), c1)
    ∧ objects (configMaps c1) = objects cl.
Proof.
  intros cl c.
  destruct (commit_update_failure c _ _ _ eq_refl eq_refl eq_refl eq_refl)
    as (c1 & H1 & H2 & _).
  exists c1. split; [exact H1 | exact H2].
Defined.

(** X5. A commit never drops an entry of the internal state and takes the
    foreign entries of the fetched resource into it. So whatever the
    cluster holds at the next commit, every entry written by this commit is
    written again with the same value: an entry that was removed from or
    changed in the cluster in between is put back. *)
Theorem commit_keeps_entries c internal fetched :
  statusApi_cm c = Some internal →
  getReactor (configMaps c) = None →
  objects (configMaps c) !! statusApiConfigMap = Some fetched →
  let c1 := (commitStatusApiAsConfigMap c).2 in
  let written := mergeInto internal fetched in
  (∀ k v, desiredEntries c !! k = Some v → desiredEntries c1 !! k = Some v)
  ∧ (∀ k v, isStatusInsightKey k = false → entries fetched !! k = Some v →
            is_Some (desiredEntries c1 !! k))
  ∧ (∀ cl fetched',
       getReactor cl = None →
       objects cl !! statusApiConfigMap = Some fetched' →
       let c2 := (commitStatusApiAsConfigMap
                    {| configMaps := cl; statusApi_cm := statusApi_cm c1;
                       statusApi_processed := statusApi_processed c1 |}).2 in
       ∃ written',
         updates (configMaps c2) = updates cl ++ [UpdateAction written']
         ∧ ∀ k v, entries written !! k = Some v → entries written' !! k = Some v).
Proof.
  intros Hcm Hg Ho c1 written.
  destruct (commit_writes c internal fetched Hcm Hg Ho) as (err & cl1 & Hc & _).
  assert (statusApi_cm c1 = Some written) as Hcm1 by (unfold c1; by rewrite Hc).
  assert (desiredEntries c1 = entries written) as Hd1
    by (unfold desiredEntries; by rewrite Hcm1).
  split; [|split].
  - intros k v Hk. rewrite Hd1. unfold desiredEntries in Hk. rewrite Hcm in Hk.
    unfold written. by rewrite lookup_mergeInto, Hk.
  - intros k v Hp Hf. rewrite Hd1. unfold written.
    rewrite lookup_mergeInto, Hp, Hf. by destruct (entries internal !! k); eauto.
  - intros cl fetched' Hg' Ho' c2.
    destruct (commit_writes
                {| configMaps := cl; statusApi_cm := statusApi_cm c1;
                   statusApi_processed := statusApi_processed c1 |}
                written fetched' Hcm1 Hg' Ho') as (err' & cl2 & Hc' & Hu').
    exists (mergeInto written fetched'). split.
    + unfold c2. by rewrite Hc'.
    + intros k v Hk. by rewrite lookup_mergeInto, Hk.
Qed.

Lemma commit_keeps_entries_witness :
  let c := {| configMaps := clusterWith (Some fooBar);
              statusApi_cm := Some {| Name := ""; Namespace := "";
                                      Data := Some {[ "usc-cv" := "v1" ]} |};
              statusApi_processed := 1 |} in
  let c1 := (commitStatusApiAsConfigMap c).2 in
  ∃ written',
    updates (configMaps (commitStatusApiAsConfigMap
                           {| configMaps := clusterWith None;
                              statusApi_cm := statusApi_cm c1;
                              statusApi_processed := statusApi_processed c1 |}).2)
    = [UpdateAction written']
    ∧ entries written' !! "foo" = Some "bar".
Proof.
  intros c c1.
  destruct (proj2 (proj2 (commit_keeps_entries c _ _ eq_refl eq_refl eq_refl))
              (clusterWith None) _ eq_refl eq_refl) as (written' & H1 & H2).
  exists written'. split; [exact H1|]. apply H2. reflexivity.
Defined.

(** *** Insights *)

Lemma lookup_fold_insert (msgs : list informerMsg) (m : gmap string string) id :
  fold_left (λ m msg, <[uid msg := string_of_list_byte (insight msg)]> m) msgs m !! id
  = match lastContent id msgs with
    | Some content => Some content
    | None => m !! id
    end.
Proof.
  revert m. induction msgs as [|msg msgs IH]; intros m; simpl; [done|].
  rewrite IH. destruct (lastContent id msgs); [done|].
  destruct (String.eqb_spec (uid msg) id) as [<-|Hne].
  - by rewrite lookup_insert_eq.
  - by rewrite lookup_insert_ne.
Qed.

(** X6. From a state whose map is allocated or unset, the receiver stores
    every insight it receives and returns nil when it is stopped: it never
    calls the client, adds the key of the ConfigMap to the queue once per
    insight, counts the insights as long as the counter stays in the range
    of [int], and keeps for each uid the content of the last message that
    carries it. *)
Theorem receiver_stores_every_insight received c queue :
  writable c →
  int_range (statusApi_processed c) →
  (statusApi_processed c + Z.of_nat (length received) ≤ max_int)%Z →
  ∃ c',
    startInsightReceiver received c queue
    = Some (None, c', queue ++ replicate (length received) statusApiConfigMap)
    ∧ writable c'
    ∧ configMaps c' = configMaps c
    ∧ statusApi_processed c' = (statusApi_processed c + Z.of_nat (length received))%Z
    ∧ ∀ id, desiredEntries c' !! id
            = match lastContent id received with
              | Some content => Some content
              | None => desiredEntries c !! id
              end.
Proof.
  revert c queue. induction received as [|msg received IH]; intros c queue Hw Hr Hmax.
  - exists c. simpl. rewrite app_nil_r. repeat split; try done. lia.
  - destruct (updateInsight_writable msg c Hw) as (c1 & H1 & Hw1 & Hcl & He & Hp).
    rewrite wrap_int_small in Hp
      by (unfold int_range, max_int in *; simpl length in Hmax; lia).
    destruct (IH c1 (queue ++ [statusApiConfigMap]) Hw1) as (c' & HR & Hw' & Hcl' & Hp' & He').
    { unfold int_range, max_int in *. simpl length in Hmax. lia. }
    { simpl length in Hmax. lia. }
    exists c'. simpl. rewrite H1, HR, <- app_assoc. simpl.
    split; [done|]. split; [done|]. split; [congruence|].
    split; [simpl length; lia|].
    intros id. rewrite He'. destruct (lastContent id received); [done|].
    rewrite He. destruct (String.eqb_spec (uid msg) id) as [<-|Hne].
    + by rewrite lookup_insert_eq.
    + by rewrite lookup_insert_ne.
Qed.

Lemma receiver_stores_every_insight_witness :
  ∃ c',
    startInsightReceiver [msgOf "usc-a" "1"; msgOf "usc-b" "2"; msgOf "usc-a" "3"]
      (newUpdateStatusController (clusterWith None)) []
    = Some (None, c', [statusApiConfigMap; statusApiConfigMap; statusApiConfigMap])
    ∧ statusApi_processed c' = 3%Z
    ∧ desiredEntries c' !! "usc-a" = Some "3".
Proof.
  destruct (receiver_stores_every_insight
              [msgOf "usc-a" "1"; msgOf "usc-b" "2"; msgOf "usc-a" "3"]
              (newUpdateStatusController (clusterWith None)) [] I)
    as (c' & H1 & _ & _ & H2 & H3).
  - unfold int_range, max_int. simpl. lia.
  - unfold max_int. simpl. lia.
  - exists c'. split; [exact H1|]. split; [exact H2 | exact (H3 "usc-a")].
Defined.

(** X7. Insights with different uids commute: stored in either order they
    lead to the same controller, and they panic in either order or in
    none. *)
Theorem insights_with_distinct_uids_commute m1 m2 c :
  uid m1 ≠ uid m2 →
  updateInsightInStatusApi m1 c ≫= updateInsightInStatusApi m2
  = updateInsightInStatusApi m2 c ≫= updateInsightInStatusApi m1.
Proof.
  intros Hne. unfold updateInsightInStatusApi.
  destruct (statusApi_cm c) as [[n ns [d|]]|]; simpl; [|done|].
  - by rewrite insert_insert_ne.
  - by rewrite insert_insert_ne.
Qed.

Lemma insights_with_distinct_uids_commute_witness :
  let c := newUpdateStatusController (clusterWith None) in
  updateInsightInStatusApi (msgOf "usc-a" "1") c
    ≫= updateInsightInStatusApi (msgOf "usc-b" "2")
  = updateInsightInStatusApi (msgOf "usc-b" "2") c
      ≫= updateInsightInStatusApi (msgOf "usc-a" "1").
Proof.
  intros c.
  exact (insights_with_distinct_uids_commute (msgOf "usc-a" "1") (msgOf "usc-b" "2") c
           ltac:(discriminate)).
Defined.

(** X8. A sync before the first insight, an insight, and a second sync over
    the same cluster: the second sync writes the data that the cluster
    held, with the entry of the insight set, and nothing else is changed;
    in particular no key of the cluster is pruned, whether it carries the
    prefix or not. *)
Theorem first_insight_after_adoption cl fetched d msg :
  getReactor cl = None →
  updateReactor cl = None →
  objects cl !! statusApiConfigMap = Some fetched →
  Name fetched = statusApiConfigMap →
  Data fetched = Some d →
  ∃ c1 c2 c3 written,
    sync "" (newUpdateStatusController cl) = (None, c1)
    ∧ updateInsightInStatusApi msg c1 = Some c2
    ∧ sync "" c2 = (None, c3)
    ∧ objects (configMaps c3) !! statusApiConfigMap = Some written
    ∧ updates (configMaps c3) = updates cl ++ [UpdateAction written]
    ∧ entries written = <[uid msg := string_of_list_byte (insight msg)]> d.
Proof.
  intros Hg Hu Ho Hn Hd.
  set (cl1 := record_action (GetAction statusApiConfigMap) cl).
  set (c1 := {| configMaps := cl1; statusApi_cm := Some fetched;
                statusApi_processed := 0 |}).
  set (internal := {| Name := Name fetched; Namespace := Namespace fetched;
                      Data := Some (<[uid msg := string_of_list_byte (insight msg)]> d) |}).
  set (c2 := {| configMaps := cl1; statusApi_cm := Some internal;
                statusApi_processed := wrap_int (0 + 1) |}).
  assert (sync "" (newUpdateStatusController cl) = (None, c1)) as H1.
  { rewrite sync_statusApiConfigMap by by left.
    unfold commitStatusApiAsConfigMap. simpl.
    by rewrite (Get_found _ _ _ Hg Ho), DeepCopy_id. }
  assert (updateInsightInStatusApi msg c1 = Some c2) as H2.
  { unfold updateInsightInStatusApi. simpl. by rewrite Hd. }
  pose proof (commit_stored c2 internal fetched eq_refl Hg Hu Ho Hn) as H3.
  rewrite <- (sync_statusApiConfigMap "" c2) in H3 by by left.
  eexists c1, c2, _, (mergeInto internal fetched).
  split; [exact H1|]. split; [exact H2|]. split; [exact H3|]. simpl.
  split; [by rewrite lookup_insert_eq|]. split.
  - unfold updates. simpl. rewrite !List.filter_app. simpl.
    by rewrite !app_nil_r.
  - apply map_eq. intros k. rewrite lookup_mergeInto. unfold entries at 1. simpl.
    destruct (decide (uid msg = k)) as [<-|Hne].
    + by rewrite !lookup_insert_eq.
    + rewrite !lookup_insert_ne by done.
      destruct (d !! k) eqn:Hk; [done|].
      unfold entries. rewrite Hd. simpl. rewrite Hk.
      by destruct (isStatusInsightKey k).
Qed.

Lemma first_insight_after_adoption_witness :
  ∃ c1 c2 c3 written,
    sync "" (newUpdateStatusController
               (clusterWith (Some {[ "usc-old" := "x"; "foo" := "bar" ]}))) = (None, c1)
    ∧ updateInsightInStatusApi (msgOf "usc-cv" "v1") c1 = Some c2
    ∧ sync "" c2 = (None, c3)
    ∧ objects (configMaps c3) !! statusApiConfigMap = Some written
    ∧ entries written !! "usc-old" = Some "x".
Proof.
  destruct (first_insight_after_adoption
              (clusterWith (Some {[ "usc-old" := "x"; "foo" := "bar" ]})) _
              {[ "usc-old" := "x"; "foo" := "bar" ]} (msgOf "usc-cv" "v1")
              eq_refl eq_refl eq_refl eq_refl eq_refl)
    as (c1 & c2 & c3 & written & H1 & H2 & H3 & H4 & _ & H5).
  exists c1, c2, c3, written. split; [exact H1|]. split; [exact H2|].
  split; [exact H3|]. split; [exact H4|]. rewrite H5. reflexivity.
Defined.

End updatestatus_more.

(** * Further properties of the wait for a cluster operator *)

Section internal_more.

Import internal.

(** *** The outcome of the wait *)

Lemma first_done_call lowerRune client expected mode ticks :
  (∀ k, k ≤ ticks → doneAt lowerRune client expected mode k = false)
  ∨ ∃ n, n ≤ ticks
         ∧ doneAt lowerRune client expected mode n = true
         ∧ ∀ k, k < n → doneAt lowerRune client expected mode k = false.
Proof.
  induction ticks as [|ticks IH].
  - destruct (doneAt lowerRune client expected mode 0) eqn:H0.
    + right. exists 0. split; [lia|]. split; [done|]. intros k Hk. lia.
    + left. intros k Hk. by replace k with 0 by lia.
  - destruct IH as [Hnot | (n & Hn & Hdone & Hbefore)].
    + destruct (doneAt lowerRune client expected mode (S ticks)) eqn:HS.
      * right. exists (S ticks). split; [lia|]. split; [done|].
        intros k Hk. apply Hnot. lia.
      * left. intros k Hk. destruct (decide (k = S ticks)) as [->|Hne]; [done|].
        apply Hnot. lia.
    + right. exists n. split; [lia|]. by split.
Qed.

Lemma diagnostic_reason lowerRune client expected mode call :
  doneAt lowerRune client expected mode call = false →
  ∃ nested reason message name,
    diagnosticAt lowerRune client expected mode call
    = Some (UpdateError nested reason message name)
    ∧ (reason = "ClusterOperatorNotAvailable" ∨ reason = "ClusterOperatorDegraded").
Proof.
  unfold doneAt, diagnosticAt, condition.
  destruct (client call _) as [actual|err]; [|by eauto 10].
  destruct (0 <? size _)%nat; [by eauto 10|].
  destruct (modeDone _ _ _); [done|]. intros _. simpl.
  unfold notDoneError.
  destruct (match degradedCondition _ with Some c => Some c | None => _ end) as [c|];
    [destruct (String.eqb _ _)|]; by eauto 10.
Qed.

(** X9. The wait returns nil after the events of start and success, or an
    update error with reason ClusterOperatorNotAvailable or
    ClusterOperatorDegraded after the events of start and failure. Since the
    condition runs at least once and records a diagnostic whenever it is not
    done, the time-out error of the poll is never returned. *)
Theorem wait_returns_nil_or_diagnostic lowerRune ticks client expected mode :
  waitForOperatorStatusToBeDone lowerRune ticks client expected mode
  = (None, [waitStarted; waitSucceeded])
  ∨ ∃ nested reason message name,
      waitForOperatorStatusToBeDone lowerRune ticks client expected mode
      = (Some (UpdateError nested reason message name), [waitStarted; waitFailed])
      ∧ (reason = "ClusterOperatorNotAvailable" ∨ reason = "ClusterOperatorDegraded").
Proof.
  destruct (first_done_call lowerRune client expected mode ticks)
    as [Hnot | (n & Hn & Hdone & Hbefore)].
  - right.
    destruct (wait_cancelled lowerRune client expected mode ticks Hnot)
      as (nested & r & m & nm & Hd & Hw).
    destruct (diagnostic_reason lowerRune client expected mode ticks)
      as (nested' & r' & m' & nm' & Hd' & Hr); [by apply Hnot|].
    rewrite Hd in Hd'. injection Hd' as -> -> -> ->.
    by exists nested', r', m', nm'.
  - left. by apply (wait_done lowerRune client expected mode n).
Qed.

(** X10. While the fetch fails the wait goes on: if every call fails to
    fetch the operator until the stop channel is closed, the wait returns
    ClusterOperatorNotAvailable for the expected name with the failure of
    the last fetch nested; and failed fetches before a call that is done do
    not keep the wait from succeeding. *)
Theorem fetch_failures_do_not_end_the_wait lowerRune ticks client expected mode
    (errs : nat → error) :
  (∀ k, k ≤ ticks → client k (ClusterOperator.Name expected) = inr (errs k)) →
  waitForOperatorStatusToBeDone lowerRune ticks client expected mode
  = (Some (UpdateError (Some (errs ticks)) "ClusterOperatorNotAvailable"
             ("Cluster operator " +:+ ClusterOperator.Name expected
              +:+ " has not yet reported success")
             (ClusterOperator.Name expected)),
     [waitStarted; waitFailed])
  ∧ ∀ ticks' n,
      ticks < n → n ≤ ticks' →
      (∀ k, ticks < k → k < n → doneAt lowerRune client expected mode k = false) →
      doneAt lowerRune client expected mode n = true →
      waitForOperatorStatusToBeDone lowerRune ticks' client expected mode
      = (None, [waitStarted; waitSucceeded]).
Proof.
  intros Hfail.
  assert (∀ k, k ≤ ticks → doneAt lowerRune client expected mode k = false) as Hnot.
  { intros k Hk. unfold doneAt, condition. by rewrite (Hfail k Hk). }
  split.
  - destruct (wait_cancelled lowerRune client expected mode ticks Hnot)
      as (nested & r & m & nm & Hd & Hw).
    rewrite Hw. unfold diagnosticAt, condition in Hd.
    rewrite (Hfail ticks) in Hd by lia. simpl in Hd. by injection Hd as <- <- <- <-.
  - intros ticks' n Hlt Hn Hbetween Hdone.
    apply (wait_done lowerRune client expected mode n); [done | | done].
    intros k Hk. destruct (decide (k ≤ ticks)); [by apply Hnot|].
    apply Hbetween; lia.
Qed.

Lemma fetch_failures_do_not_end_the_wait_witness :
  waitForOperatorStatusToBeDone (λ s, s) 2
    (λ _ _, inr (StatusError "ServiceUnavailable" "try again"))
    (mkOperator "X" [] []) DefaultMode
  = (Some (UpdateError (Some (StatusError "ServiceUnavailable" "try again"))
             "ClusterOperatorNotAvailable"
             "Cluster operator X has not yet reported success" "X"),
     [waitStarted; waitFailed]).
Proof.
  exact (proj1 (fetch_failures_do_not_end_the_wait (λ s, s) 2
                  (λ _ _, inr (StatusError "ServiceUnavailable" "try again"))
                  (mkOperator "X" [] []) DefaultMode
                  (λ _, StatusError "ServiceUnavailable" "try again")
                  (λ k _, eq_refl))).
Defined.

(** *** The diagnostic of a call that is not done *)

Lemma lastOfType_cons t c conditions :
  lastOfType t (c :: conditions)
  = match lastOfType t conditions with
    | Some x => Some x
    | None => if hasType t c then Some c else None
    end.
Proof.
  unfold lastOfType. destruct (hasType t c) eqn:Hc.
  - rewrite filter_cons_True by done.
    destruct (filter _ conditions) as [|x l] eqn:Hf; [done|].
    by rewrite last_cons, last_cons.
  - rewrite filter_cons_False by congruence. by destruct (last _).
Qed.

Lemma scanCondition_kept s c :
  degradedCondition (scanCondition s c)
  = (if hasType OperatorDegraded c then Some c else degradedCondition s)
  ∧ failingCondition (scanCondition s c)
    = (if hasType OperatorFailing c then Some c else failingCondition s).
Proof.
  destruct c as [t st m], s as [a p f fc dv dc].
  unfold scanCondition, hasType.
  cbn [Condition.Type_ Condition.Status available progressing failing
       failingCondition degradedValue degradedCondition].
  destruct (String.eqb_spec t OperatorAvailable) as [HA|HA];
    destruct (String.eqb_spec t OperatorProgressing) as [HP|HP];
    destruct (String.eqb_spec t OperatorFailing) as [HFa|HFa];
    destruct (String.eqb_spec t OperatorDegraded) as [HD|HD];
    try (exfalso; unfold OperatorAvailable, OperatorProgressing, OperatorFailing,
           OperatorDegraded in *; congruence);
    destruct (String.eqb st ConditionTrue), (String.eqb st ConditionFalse);
    cbn; by split.
Qed.

Lemma scan_kept conditions s :
  degradedCondition (fold_left scanCondition conditions s)
  = match lastOfType OperatorDegraded conditions with
    | Some c => Some c
    | None => degradedCondition s
    end
  ∧ failingCondition (fold_left scanCondition conditions s)
    = match lastOfType OperatorFailing conditions with
      | Some c => Some c
      | None => failingCondition s
      end.
Proof.
  revert s. induction conditions as [|c conditions IH]; intros s; [done|].
  simpl. destruct (IH (scanCondition s c)) as [H1 H2].
  destruct (scanCondition_kept s c) as [E1 E2].
  rewrite H1, H2, E1, E2, !lastOfType_cons.
  split.
  - destruct (lastOfType OperatorDegraded conditions); [done|].
    by destruct (hasType OperatorDegraded c).
  - destruct (lastOfType OperatorFailing conditions); [done|].
    by destruct (hasType OperatorFailing c).
Qed.

(** X11. At a call that finds no operand outstanding and is not done, the
    diagnostic follows the last condition of type Degraded, or the last of
    type Failing when there is none of type Degraded: when its status is
    True the reason is ClusterOperatorDegraded and the message reports a
    failure, followed by the message of the condition when that is not
    empty; otherwise, and when there is no such condition, the reason is
    ClusterOperatorNotAvailable and the message says that the operator has
    not yet reported success. *)
Theorem not_done_diagnostic lowerRune client expected mode call actual :
  client call (ClusterOperator.Name expected) = inl actual →
  computeUndone expected actual = ∅ →
  doneAt lowerRune client expected mode call = false →
  let conditions := ClusterOperatorStatus.Conditions (ClusterOperator.Status actual) in
  let name := ClusterOperator.Name actual in
  ∃ nested reason message,
    diagnosticAt lowerRune client expected mode call
    = Some (UpdateError (Some (errorString nested)) reason message name)
    ∧ match failureCondition conditions with
      | Some c =>
          if String.eqb (Condition.Status c) ConditionTrue then
            reason = "ClusterOperatorDegraded"
            ∧ message
              = (if (0 <? String.length (Condition.Message c))%nat
                 then "Cluster operator " +:+ name +:+ " is reporting a failure: "
                      +:+ Condition.Message c
                 else "Cluster operator " +:+ name +:+ " is reporting a failure")
          else
            reason = "ClusterOperatorNotAvailable"
            ∧ message = "Cluster operator " +:+ name +:+ " has not yet reported success"
      | None =>
          reason = "ClusterOperatorNotAvailable"
          ∧ message = "Cluster operator " +:+ name +:+ " has not yet reported success"
      end.
Proof.
  intros Hget Hundone Hnot conditions name.
  unfold doneAt, diagnosticAt, condition in *.
  rewrite Hget, Hundone, map_size_empty in *. simpl in *.
  fold conditions in Hnot |- *.
  destruct (modeDone mode expected (scanConditions conditions)); [done|]. simpl.
  destruct (scan_kept conditions scanStart) as [HD HF]. simpl in HD, HF.
  unfold notDoneError, failureCondition. fold (scanConditions conditions) in HD, HF.
  rewrite HD, HF. fold name.
  destruct (lastOfType OperatorDegraded conditions) as [c|].
  - destruct (String.eqb (Condition.Status c) ConditionTrue);
      eexists _, _, _; (split; [reflexivity|]); by split.
  - destruct (lastOfType OperatorFailing conditions) as [c|].
    + destruct (String.eqb (Condition.Status c) ConditionTrue);
        eexists _, _, _; (split; [reflexivity|]); by split.
    + eexists _, _, _. split; [reflexivity|]. by split.
Qed.

Lemma not_done_diagnostic_witness :
  let unknown := mkOperator "etcd" []
                   [ mkCondition OperatorAvailable ConditionTrue "";
                     mkCondition OperatorProgressing ConditionFalse "";
                     mkCondition OperatorFailing ConditionTrue "old";
                     mkCondition OperatorDegraded ConditionUnknown "no data" ] in
  ∃ nested,
    diagnosticAt (λ s, s) (λ _ _, inl unknown) (mkOperator "etcd" [] []) DefaultMode 0
    = Some (UpdateError (Some (errorString nested)) "ClusterOperatorNotAvailable"
              "Cluster operator etcd has not yet reported success" "etcd").
Proof.
  intros unknown.
  destruct (not_done_diagnostic (λ s, s) (λ _ _, inl unknown) (mkOperator "etcd" [] [])
              DefaultMode 0 unknown eq_refl eq_refl eq_refl)
    as (nested & reason & message & Hd & Hr & Hm).
  exists nested. rewrite Hd, Hr, Hm. reflexivity.
Defined.

(** *** The first letter of the nested message *)

Lemma toLowerASCII_range c :
  nat_of_ascii c < 128 →
  nat_of_ascii (toLowerASCII c) < 128
  ∧ toLowerASCII (toLowerASCII c) = toLowerASCII c.
Proof.
  intros Hc. unfold toLowerASCII.
  destruct ((65 <=? nat_of_ascii c) && (nat_of_ascii c <=? 90))%nat eqn:Hup.
  - apply andb_true_iff in Hup as [H1 H2].
    apply Nat.leb_le in H1, H2.
    rewrite nat_ascii_embedding by lia. split; [lia|].
    replace ((65 <=? nat_of_ascii c + 32) && (nat_of_ascii c + 32 <=? 90))%nat
      with false; [done|].
    symmetry. apply andb_false_iff. right. apply Nat.leb_gt. lia.
  - split; [done|]. by rewrite Hup.
Qed.

(** X12. [lowerFirst] maps the empty string to itself. On a string that
    starts with an ASCII byte it replaces that byte by its lower case, an
    upper-case letter by the letter 32 places on and any other byte by
    itself, and keeps the rest, so the length is kept and a second
    application changes nothing. *)
Theorem lowerFirst_ascii lowerRune c rest :
  lowerFirst lowerRune "" = ""
  ∧ (nat_of_ascii c < 128 →
     lowerFirst lowerRune (String c rest) = String (toLowerASCII c) rest
     ∧ String.length (lowerFirst lowerRune (String c rest))
       = String.length (String c rest)
     ∧ lowerFirst lowerRune (lowerFirst lowerRune (String c rest))
       = lowerFirst lowerRune (String c rest)
     ∧ (65 ≤ nat_of_ascii c ≤ 90 →
        nat_of_ascii (toLowerASCII c) = nat_of_ascii c + 32)
     ∧ (¬ 65 ≤ nat_of_ascii c ≤ 90 → toLowerASCII c = c)).
Proof.
  split; [done|]. intros Hc.
  destruct (toLowerASCII_range c Hc) as [Hr Hi].
  assert (lowerFirst lowerRune (String c rest) = String (toLowerASCII c) rest) as H1.
  { unfold lowerFirst. by rewrite (proj2 (Nat.ltb_lt _ _) Hc). }
  split; [exact H1|]. split; [by rewrite H1|]. split.
  - rewrite H1. unfold lowerFirst. by rewrite (proj2 (Nat.ltb_lt _ _) Hr), Hi.
  - unfold toLowerASCII. split.
    + intros [Hlo Hhi].
      rewrite (proj2 (Nat.leb_le _ _) Hlo), (proj2 (Nat.leb_le _ _) Hhi). simpl.
      apply nat_ascii_embedding. lia.
    + intros Hno.
      destruct (65 <=? nat_of_ascii c)%nat eqn:H65; [|done].
      destruct (nat_of_ascii c <=? 90)%nat eqn:H90; [|done].
      apply Nat.leb_le in H65, H90. lia.
Qed.

Lemma lowerFirst_ascii_witness :
  lowerFirst (λ s, s) "Cluster operator etcd is still updating"
  = "cluster operator etcd is still updating".
Proof.
  exact (proj1 (proj2 (lowerFirst_ascii (λ s, s) "C"%char
                         "luster operator etcd is still updating")
                  ltac:(vm_compute; lia))).
Defined.

Lemma condition_lowerRune lr1 lr2 client expected mode call lastErr :
  condition lr1 client expected mode call lastErr
  = condition lr2 client expected mode call lastErr.
Proof.
  unfold condition. destruct (client call _) as [actual|err]; [|done].
  destruct (0 <? size _)%nat.
  - unfold stillUpdatingMessage. by destruct (0 <? length _)%nat.
  - destruct (modeDone _ _ _); [done|]. unfold notDoneError.
    destruct (match degradedCondition _ with Some c => Some c | None => _ end) as [c|];
      [|done].
    destruct (String.eqb _ _); [|done]. by destruct (0 <? String.length _)%nat.
Qed.

Lemma PollUntil_ext {St} (c1 c2 : nat → St → (bool * option error) * St) call ticks s :
  (∀ call s, c1 call s = c2 call s) →
  PollUntil c1 call ticks s = PollUntil c2 call ticks s.
Proof.
  intros Hext. revert call s. induction ticks as [|ticks IH]; intros call s; [done|].
  simpl. rewrite Hext. destruct (c2 call s) as [[done err] s'].
  destruct err; [done|]. destruct done; [done|]. apply IH.
Qed.

(** X13. Every diagnostic that a call records after it has fetched the
    operator has a message that starts with the words Cluster operator and
    a nested text that starts with the same words with a small c; for an
    operator that is still updating or is reporting a failure the nested
    text is the message with a small c. The first rune handed to
    [lowerFirst] is thus always the letter C, and the result of the wait
    does not depend on how runes outside ASCII are put in lower case. *)
Theorem wait_nested_message_is_lower_case lr1 lr2 ticks client expected mode :
  (∀ call actual,
     client call (ClusterOperator.Name expected) = inl actual →
     doneAt lr1 client expected mode call = false →
     ∃ nested rest reason,
       diagnosticAt lr1 client expected mode call
       = Some (UpdateError (Some (errorString ("cluster operator " +:+ nested)))
                 reason ("Cluster operator " +:+ rest) (ClusterOperator.Name actual))
       ∧ (computeUndone expected actual ≠ ∅ ∨ reason = "ClusterOperatorDegraded" →
          nested = rest))
  ∧ waitForOperatorStatusToBeDone lr1 ticks client expected mode
    = waitForOperatorStatusToBeDone lr2 ticks client expected mode.
Proof.
  split.
  - intros call actual Hget. unfold doneAt, diagnosticAt, condition. rewrite Hget.
    destruct (0 <? size (computeUndone expected actual))%nat eqn:Hsize.
    + intros _. unfold stillUpdatingMessage.
      destruct (0 <? length _)%nat; eexists _, _, _; (split; [reflexivity|]); done.
    + assert (computeUndone expected actual = ∅) as Hempty.
      { apply map_size_empty_iff. apply Nat.ltb_ge in Hsize. lia. }
      destruct (modeDone _ _ _); [done|]. intros _. simpl. unfold notDoneError.
      destruct (match degradedCondition _ with Some c => Some c | None => _ end) as [c|].
      * destruct (String.eqb _ _).
        -- destruct (0 <? String.length _)%nat;
             eexists _, _, _; (split; [reflexivity|]); done.
        -- eexists _, _, _. split; [reflexivity|]. intros [Hne | Hr]; [done|].
           discriminate Hr.
      * eexists _, _, _. split; [reflexivity|]. intros [Hne | Hr]; [done|].
        discriminate Hr.
  - unfold waitForOperatorStatusToBeDone, PollImmediateUntil.
    rewrite (condition_lowerRune lr1 lr2).
    destruct (condition lr2 client expected mode 0 None) as [[done err] s'].
    destruct err; [done|]. destruct done; [done|].
    by rewrite (PollUntil_ext _ (condition lr2 client expected mode))
      by (intros; apply condition_lowerRune).
Qed.

Lemma wait_nested_message_is_lower_case_witness :
  let failing := mkOperator "etcd" []
                   [ mkCondition OperatorAvailable ConditionTrue "";
                     mkCondition OperatorDegraded ConditionTrue "disk full" ] in
  ∃ nested rest,
    diagnosticAt (λ s, s) (λ _ _, inl failing) (mkOperator "etcd" [] []) DefaultMode 0
    = Some (UpdateError (Some (errorString ("cluster operator " +:+ nested)))
              "ClusterOperatorDegraded" ("Cluster operator " +:+ rest) "etcd")
    ∧ nested = rest
    ∧ rest = "etcd is reporting a failure: disk full".
Proof.
  intros failing.
  destruct (proj1 (wait_nested_message_is_lower_case (λ s, s) (λ s, s) 0
                     (λ _ _, inl failing) (mkOperator "etcd" [] []) DefaultMode)
              0 failing eq_refl eq_refl)
    as (nested & rest & reason & Hd & Heq).
  assert (reason = "ClusterOperatorDegraded"
          ∧ rest = "etcd is reporting a failure: disk full") as [-> Hrest].
  { assert (diagnosticAt (λ s, s) (λ _ _, inl failing) (mkOperator "etcd" [] [])
              DefaultMode 0
            = Some (UpdateError
                      (Some (errorString
                               "cluster operator etcd is reporting a failure: disk full"))
                      "ClusterOperatorDegraded"
                      "Cluster operator etcd is reporting a failure: disk full" "etcd"))
      as Hc by (vm_compute; reflexivity).
    rewrite Hc in Hd. injection Hd as _ Hr Hm. split; [done|].
    cbn in Hm. repeat (injection Hm; clear Hm; intros Hm). done. }
  exists nested, rest. split; [exact Hd|]. split; [|exact Hrest].
  apply Heq. by right.
Defined.

(** *** Versions *)

Lemma computeUndone_empty_iff expected actual :
  computeUndone expected actual = ∅
  ↔ ∀ n ev,
      lookupVersion n
        (rev (ClusterOperatorStatus.Versions (ClusterOperator.Status expected)))
      = Some ev →
      lookupVersion n (ClusterOperatorStatus.Versions (ClusterOperator.Status actual))
      = Some ev.
Proof.
  split.
  - intros Hempty n ev Hev.
    pose proof (computeUndone_lookup expected actual n) as H.
    rewrite Hempty, lookup_empty, Hev in H.
    destruct (decide (lookupVersion n
                (ClusterOperatorStatus.Versions (ClusterOperator.Status actual))
              = Some ev)) as [|Hne]; [done|].
    apply undoneTuple_is_Some in Hne as [? Hne]. congruence.
  - intros Hall. apply map_eq. intros n.
    rewrite lookup_empty, computeUndone_lookup.
    destruct (lookupVersion n (rev _)) as [ev|] eqn:Hev; [|done].
    rewrite (Hall n ev Hev). unfold undoneTuple. by rewrite String.eqb_refl.
Qed.

(** X14. No operand is undone iff the actual versions give, under every
    name of the expected versions, the version expected for it. When that
    is so and versions are expected at all, an available operator is done
    whatever its Progressing condition reports, in the initializing mode
    and, unless it is degraded, in the default mode. *)
Theorem reported_versions_complete lowerRune client expected mode call lastErr actual :
  client call (ClusterOperator.Name expected) = inl actual →
  let exps := ClusterOperatorStatus.Versions (ClusterOperator.Status expected) in
  let acts := ClusterOperatorStatus.Versions (ClusterOperator.Status actual) in
  let conditions := ClusterOperatorStatus.Conditions (ClusterOperator.Status actual) in
  (computeUndone expected actual = ∅
   ↔ ∀ n ev, lookupVersion n (rev exps) = Some ev → lookupVersion n acts = Some ev)
  ∧ (exps ≠ [] →
     (∀ n ev, lookupVersion n (rev exps) = Some ev → lookupVersion n acts = Some ev) →
     existsb (reports OperatorAvailable ConditionTrue) conditions = true →
     mode = InitializingMode ∨ degradedOf (scanConditions conditions) = false →
     condition lowerRune client expected mode call lastErr = ((true, None), lastErr)).
Proof.
  intros Hget exps acts conditions.
  split; [apply computeUndone_empty_iff|].
  intros Hne Hall Hav Hmode.
  apply computeUndone_empty_iff in Hall.
  unfold condition. rewrite Hget, Hall, map_size_empty. simpl.
  fold conditions exps.
  destruct (scanConditions_fields conditions) as (H1 & _).
  assert (modeDone mode expected (scanConditions conditions) = true) as ->; [|done].
  unfold modeDone. fold exps. rewrite H1, Hav.
  destruct exps as [|e exps']; [done|]. simpl. rewrite orb_true_r.
  destruct Hmode as [-> | Hdeg]; [done|]. rewrite Hdeg. by destruct mode.
Qed.

Lemma reported_versions_complete_witness :
  let expected := mkOperator "etcd" [mkOperand "operator" "4.10.0"] [] in
  let actual := mkOperator "etcd" [mkOperand "operator" "4.10.0"; mkOperand "etcd" "3.5"]
                  [ mkCondition OperatorAvailable ConditionTrue "";
                    mkCondition OperatorProgressing ConditionTrue "rolling out";
                    mkCondition OperatorDegraded ConditionFalse "" ] in
  condition (λ s, s) (λ _ _, inl actual) expected DefaultMode 0 None
  = ((true, None), None).
Proof.
  intros expected actual.
  refine (proj2 (reported_versions_complete (λ s, s) (λ _ _, inl actual) expected
                   DefaultMode 0 None actual eq_refl)
            ltac:(discriminate) _ eq_refl (or_intror eq_refl)).
  apply computeUndone_empty_iff. vm_compute. reflexivity.
Defined.

(** X15. Every operand that the report loop visits has a tuple in [undone]
    of one or two versions: the expected version alone when the actual
    versions do not name the operand, else the expected version followed by
    the actual one, which differs. So the second entry that the loop reads
    from a tuple of more than one version is there, and the report is the
    one for a missing or for another version. *)
Theorem undone_tuple_shape expected actual op :
  op ∈ undoneKeys (computeUndone expected actual) →
  let exps := ClusterOperatorStatus.Versions (ClusterOperator.Status expected) in
  let acts := ClusterOperatorStatus.Versions (ClusterOperator.Status actual) in
  ∃ ver ev,
    computeUndone expected actual !! op = Some ver
    ∧ lookupVersion op (rev exps) = Some ev
    ∧ (lookupVersion op acts = None ∧ ver = [ev]
       ∨ ∃ av, lookupVersion op acts = Some av ∧ av ≠ ev ∧ ver = [ev; av])
    ∧ operandReport op ver = reportFor op ev (lookupVersion op acts).
Proof.
  intros Hop exps acts.
  apply undoneKeys_sorted, elem_of_dom in Hop as [ver Hver].
  pose proof Hver as Hl. rewrite computeUndone_lookup in Hl. fold exps acts in Hl.
  destruct (lookupVersion op (rev exps)) as [ev|]; [|done].
  exists ver, ev. split; [done|]. split; [done|].
  split; [|by apply operandReport_undoneTuple].
  unfold undoneTuple in Hl. destruct (lookupVersion op acts) as [av|].
  - destruct (String.eqb_spec av ev) as [|Hne]; [done|].
    right. exists av. by injection Hl as <-.
  - left. by injection Hl as <-.
Qed.

Lemma undone_tuple_shape_witness :
  let expected := mkOperator "etcd" [mkOperand "etcd" "3.5"] [] in
  let actual := mkOperator "etcd" [mkOperand "etcd" "3.4"] [] in
  ∃ ver, computeUndone expected actual !! "etcd" = Some ver
         ∧ operandReport "etcd" ver = "upgrading etcd from 3.4 to 3.5".
Proof.
  intros expected actual.
  destruct (undone_tuple_shape expected actual "etcd") as (ver & ev & H1 & H2 & _ & H3).
  - vm_compute. left.
  - exists ver. split; [exact H1|]. rewrite H3.
    injection H2 as <-. reflexivity.
Defined.

End internal_more.

(** * What a sync of the update status controller never does *)

Section sync_frame.

Import updatestatus.

Lemma dom_objects_Update o cl : dom (objects (Update o cl).2) = dom (objects cl).
Proof.
  unfold Update. destruct (updateReactor cl); [done|].
  destruct (objects cl !! Name o) as [old|] eqn:Ho; [|done]. simpl.
  rewrite dom_insert_L. apply set_eq. intros k.
  rewrite elem_of_union, elem_of_singleton. split; [|by right].
  intros [->|Hk]; [by eapply elem_of_dom_2 | done].
Qed.

Lemma length_actions_Update o cl :
  length (actions (Update o cl).2) = S (length (actions cl)).
Proof.
  unfold Update. destruct (updateReactor cl); simpl.
  - rewrite length_app. simpl. lia.
  - destruct (objects cl !! Name o); simpl; rewrite length_app; simpl; lia.
Qed.

Lemma length_actions_Get name cl :
  length (actions (Get name cl).2) = S (length (actions cl)).
Proof.
  unfold Get. destruct (getReactor cl); simpl.
  - rewrite length_app. simpl. lia.
  - destruct (objects cl !! name); simpl; rewrite length_app; simpl; lia.
Qed.

(** X17. A sync never creates or deletes an object of the cluster: the
    names of the ConfigMaps are the same before and after, so a ConfigMap of
    the status API that does not exist is not made. A sync calls the client
    at most twice, sends at most one update, and never changes the count of
    processed insights. *)
Theorem sync_never_creates key c :
  let c' := (sync key c).2 in
  dom (objects (configMaps c')) = dom (objects (configMaps c))
  ∧ statusApi_processed c' = statusApi_processed c
  ∧ length (actions (configMaps c')) ≤ length (actions (configMaps c)) + 2
  ∧ length (updates (configMaps c')) ≤ length (updates (configMaps c)) + 1.
Proof.
  unfold sync.
  destruct (negb _); [simpl; repeat split; lia|].
  unfold commitStatusApiAsConfigMap.
  pose proof (objects_Get statusApiConfigMap (configMaps c)) as HoG.
  pose proof (updates_Get statusApiConfigMap (configMaps c)) as HuG.
  pose proof (length_actions_Get statusApiConfigMap (configMaps c)) as HaG.
  destruct (Get statusApiConfigMap (configMaps c)) as [[fetched|err] cl1].
  - simpl in HoG, HuG, HaG. destruct (statusApi_cm c) as [internal|].
    + pose proof (dom_objects_Update (mergeInto internal fetched) cl1) as HoU.
      pose proof (updates_Update (mergeInto internal fetched) cl1) as HuU.
      pose proof (length_actions_Update (mergeInto internal fetched) cl1) as HaU.
      destruct (Update (mergeInto internal fetched) cl1) as [e cl2].
      simpl in *. rewrite HoU, HoG, HuU, HuG, HaU, HaG, length_app. simpl.
      repeat split; lia.
    + simpl. rewrite HoG, HuG, HaG. repeat split; lia.
  - simpl in HoG, HuG, HaG.
    destruct (IsNotFound err); simpl; rewrite HoG, HuG, HaG; repeat split; lia.
Qed.

End sync_frame.

(** * Further properties of the precondition checks *)

Section precondition_more.

Import precondition.

Lemma RunAll_fold {World} (pfList : list (Precondition.t World)) desiredVersion w errs :
  fold_left
    (λ '(errs, w) pf,
       let '(err, w') := Precondition.Run pf desiredVersion w in
       match err with
       | Some e => (errs ++ [e], w')
       | None => (errs, w')
       end)
    pfList (errs, w)
  = (errs ++ omap id (outcomes pfList desiredVersion w),
     fold_left (λ w pf, (Precondition.Run pf desiredVersion w).2) pfList w).
Proof.
  revert errs w. induction pfList as [|pf pfList IH]; intros errs w; simpl.
  - by rewrite app_nil_r.
  - destruct (Precondition.Run pf desiredVersion w) as [[e|] w'] eqn:Hrun; simpl.
    + by rewrite IH, <- app_assoc.
    + by rewrite IH.
Qed.

Lemma length_outcomes {World} (pfList : list (Precondition.t World)) desiredVersion w :
  length (outcomes pfList desiredVersion w) = length pfList.
Proof.
  revert w. induction pfList as [|pf pfList IH]; intros w; simpl; [done|].
  by rewrite IH.
Qed.

(** X16. [RunAll] runs every check of the list once, in order, each in the
    world left by the checks before it, whether or not these have failed,
    and returns the errors of the failed checks in the order of the list.
    The summary of what it returns is nil iff every check has passed. *)
Theorem RunAll_runs_every_check {World} quote (pfList : list (Precondition.t World))
    desiredVersion w :
  RunAll pfList desiredVersion w
  = (omap id (outcomes pfList desiredVersion w),
     fold_left (λ w pf, (Precondition.Run pf desiredVersion w).2) pfList w)
  ∧ length (outcomes pfList desiredVersion w) = length pfList
  ∧ length (RunAll pfList desiredVersion w).1 ≤ length pfList
  ∧ (Summarize quote (RunAll pfList desiredVersion w).1 = None
     ↔ Forall (λ o, o = None) (outcomes pfList desiredVersion w)).
Proof.
  assert (RunAll pfList desiredVersion w
          = (omap id (outcomes pfList desiredVersion w),
             fold_left (λ w pf, (Precondition.Run pf desiredVersion w).2) pfList w))
    as Heq by apply (RunAll_fold pfList desiredVersion w []).
  pose proof (length_outcomes pfList desiredVersion w) as Hlen.
  split; [exact Heq|]. split; [exact Hlen|]. rewrite Heq. simpl. split.
  - rewrite <- Hlen. generalize (outcomes pfList desiredVersion w). clear.
    intros l. induction l as [|[e|] l IH]; cbn in *; lia.
  - generalize (outcomes pfList desiredVersion w). clear. intros l.
    assert (omap id l = [] ↔ Forall (λ o, o = None) l) as Hnil.
    { induction l as [|[e|] l IH]; cbn.
      - split; [by constructor | done].
      - split; [done|]. intros H. by apply Forall_cons in H as [? _].
      - rewrite IH. split; [by constructor|]. intros H. by apply Forall_cons in H as [_ ?]. }
    rewrite <- Hnil. unfold Summarize. destruct (omap id l); simpl; [done|].
    split; discriminate.
Qed.

Lemma RunAll_runs_every_check_witness :
  let pass := {| Precondition.Run := λ _ (runs : nat), (None, S runs);
                 Precondition.Name := "Pass" |} in
  let fail := {| Precondition.Run :=
                   λ _ (runs : nat),
                     (Some (PreconditionError None "NotReady" "not ready" "Fail"), S runs);
                 Precondition.Name := "Fail" |} in
  RunAll [pass; fail; pass] "4.10.0" 0
  = ([PreconditionError None "NotReady" "not ready" "Fail"], 3).
Proof.
  intros pass fail.
  exact (proj1 (RunAll_runs_every_check quotePlain [pass; fail; pass] "4.10.0" 0)).
Defined.

End precondition_more.
